(** * The POSIX jobserver client of ninja (src/jobserver.h, src/jobserver-posix.cc)

    A shallow embedding of [struct Jobserver]: its constructor, destructor,
    [Enabled], [Acquire], [Release] and [Clear].  The object is a record, the
    operating system is an explicit [World] (what the next system calls will
    answer, the current [errno], and the trace of everything the process did),
    and the member functions are written in a small state monad over both, in
    which [Fatal] ends the run. *)

From Stdlib Require Import ZArith String Ascii List Bool Lia.
Import ListNotations.

Open Scope string_scope.
Open Scope list_scope.
Open Scope Z_scope.

(** ** Machine integers *)

(** [int] is 32 bits wide.  Values are kept in [Z]; the only place of the
    program where an [int] can leave its range is [token_count_++], and there
    the model takes the two's-complement result. *)
Definition INT_MAX : Z := 2147483647.
Definition INT_MIN : Z := -2147483648.

Definition wrap_int (z : Z) : Z := (z + 2 ^ 31) mod 2 ^ 32 - 2 ^ 31.

(** ** Characters and C strings *)

(** <ctype.h> in the "C" locale. *)
Definition char_code (c : ascii) : Z := Z.of_nat (nat_of_ascii c).

Definition isblank (c : ascii) : bool :=
  (char_code c =? 32) || (char_code c =? 9).

Definition isspace (c : ascii) : bool :=
  (char_code c =? 32) || ((9 <=? char_code c) && (char_code c <=? 13)).

Definition isdigit (c : ascii) : bool :=
  (48 <=? char_code c) && (char_code c <=? 57).

(** What a [char*] denotes: the characters before the first NUL. *)
Fixpoint c_str (s : string) : string :=
  match s with
  | EmptyString => EmptyString
  | String c s' =>
      if char_code c =? 0 then EmptyString else String c (c_str s')
  end.

Definition strlen (s : string) : Z := Z.of_nat (String.length (c_str s)).

(** std::string *)
Definition empty (s : string) : bool :=
  match s with EmptyString => true | String _ _ => false end.

Definition push_back (s : string) (c : ascii) : string :=
  (s ++ String c EmptyString)%string.

(** [s.substr(n)] for [n <= s.size()] *)
Fixpoint substr (n : nat) (s : string) : string :=
  match n, s with
  | O, _ => s
  | S n', String _ s' => substr n' s'
  | S _, EmptyString => EmptyString
  end.

(** [s.find(key) == 0]: [key] occurs at position 0 of [s]. *)
Definition starts_with (key s : string) : bool := String.prefix key s.

(** ** The flag keys (src/jobserver.h) *)
Definition AUTH_KEY : string := "--jobserver-auth=".
Definition FDS_KEY : string := "--jobserver-fds=".
Definition FIFO_KEY : string := "fifo:".

(** ** Tokenizing MAKEFLAGS (constructor, lines 37-50) *)

(** The two nested loops walk the characters once, [flag_char_] only moving
    forward: the inner loop appends a run of non-blank characters to [flag_];
    at the blank that stops it, or at the end of the string, the outer loop
    pushes a non-empty [flag_] onto [flags_], clears it and steps over the
    blank.  [makeflags] below is the part of the string from [flag_char_]
    on. *)
Fixpoint tokenize_from (makeflags : string) (flag_ : string)
    (flags_ : list string) : list string :=
  match makeflags with
  | EmptyString => if empty flag_ then flags_ else flags_ ++ [flag_]
  | String c rest =>
      if isblank c then
        tokenize_from rest EmptyString
          (if empty flag_ then flags_ else flags_ ++ [flag_])
      else
        tokenize_from rest (push_back flag_ c) flags_
  end.

Definition tokenize (makeflags : string) : list string :=
  tokenize_from makeflags EmptyString [].

(** ** Selecting the flag value (constructor, lines 52-65) *)

(** [for (n ...) if (flags_[n].find(key) == 0) flag_ = flags_[n].substr(strlen(key));] *)
Fixpoint scan_key (key : string) (flags_ : list string) (flag_ : string)
    : string :=
  match flags_ with
  | [] => flag_
  | word :: rest =>
      scan_key key rest
        (if starts_with key word then substr (String.length key) word
         else flag_)
  end.

(** The value of [flag_] at line 64.  It is empty when the tokenizer ends. *)
Definition flag_value (makeflags : string) : string :=
  let flags_ := tokenize makeflags in
  let flag_ := scan_key AUTH_KEY flags_ EmptyString in
  if empty flag_ then scan_key FDS_KEY flags_ flag_ else flag_.

(** ** sscanf(s, "%d,%d", &a, &b) *)

Definition LONG_MAX : Z := 9223372036854775807.
Definition LONG_MIN : Z := -9223372036854775808.

(** The digits are converted as [strtol] does, saturating at the range of
    [long] (64 bits), and the result is stored into the [int] by truncation
    (glibc; beyond the range of [int] the C standard leaves the result open). *)
Definition to_int (v : Z) : Z :=
  wrap_int (Z.max LONG_MIN (Z.min LONG_MAX v)).

Fixpoint skip_space (s : string) : string :=
  match s with
  | EmptyString => EmptyString
  | String c s' => if isspace c then skip_space s' else s
  end.

Definition digit_value (c : ascii) : Z := char_code c - 48.

(** Consumes the longest run of digits. *)
Fixpoint scan_digits (s : string) (acc : Z) : Z * string :=
  match s with
  | EmptyString => (acc, EmptyString)
  | String c s' =>
      if isdigit c then scan_digits s' (10 * acc + digit_value c)
      else (acc, s)
  end.

Inductive conv : Type :=
| ConvEOF                          (* input ended before the item *)
| ConvFail                         (* the input does not match *)
| ConvOK (v : Z) (rest : string).  (* converted; [rest] is left unread *)

Definition scan_sign (s : string) : bool * string :=
  match s with
  | String c s' =>
      if char_code c =? 45 then (true, s')
      else if char_code c =? 43 then (false, s')
      else (false, s)
  | EmptyString => (false, s)
  end.

Definition starts_with_digit (s : string) : bool :=
  match s with
  | String c _ => isdigit c
  | EmptyString => false
  end.

(** The directive [%d]: white space is skipped, then an optional sign and at
    least one digit are required. *)
Definition scan_int (s : string) : conv :=
  match skip_space s with
  | EmptyString => ConvEOF
  | s1 =>
      let (neg, s2) := scan_sign s1 in
      if starts_with_digit s2 then
        let (v, rest) := scan_digits s2 0 in
        ConvOK (to_int (if neg then - v else v)) rest
      else ConvFail
  end.

(** The return value and the two [int]s behind the pointers, which start as
    [a] and [b].  A conversion that fails stores nothing; EOF (-1) is returned
    only when the input ends before the first conversion. *)
Definition sscanf_d_comma_d (s : string) (a b : Z) : Z * Z * Z :=
  match scan_int s with
  | ConvEOF => (-1, a, b)
  | ConvFail => (0, a, b)
  | ConvOK a' rest =>
      match rest with
      | String c rest' =>
          if char_code c =? 44 then
            match scan_int rest' with
            | ConvOK b' _ => (2, a', b')
            | _ => (1, a', b)
            end
          else (1, a', b)
      | EmptyString => (1, a', b)
      end
  end.

(** [strtol] reports a saturated conversion in [errno] as ERANGE, and
    [sscanf] leaves it there (glibc; 34 is the value on Linux).  [errno] is
    not touched otherwise. *)
Definition ERANGE : Z := 34.

(** Whether the [%d] at the head of [s] converts a number outside the range
    of [long]. *)
Definition scan_int_erange (s : string) : bool :=
  match skip_space s with
  | EmptyString => false
  | s1 =>
      let (neg, s2) := scan_sign s1 in
      if starts_with_digit s2 then
        let (v, _) := scan_digits s2 0 in
        let x := if neg then - v else v in
        (x <? LONG_MIN) || (LONG_MAX <? x)
      else false
  end.

(** Whether one of the conversions [sscanf] makes on [s] saturates. *)
Definition sscanf_erange (s : string) : bool :=
  match scan_int s with
  | ConvOK _ rest =>
      scan_int_erange s
      || match rest with
         | String c rest' =>
             if char_code c =? 44 then scan_int_erange rest' else false
         | EmptyString => false
         end
  | _ => false
  end.

(** The spec's reading of a well-formed pair, "exactly two decimal integers
    separated by a comma", with nothing after the second integer. *)
Definition spec_exactly_two_integers (s : string) : option (Z * Z) :=
  match scan_int s with
  | ConvOK a (String c rest) =>
      if char_code c =? 44 then
        match scan_int rest with
        | ConvOK b EmptyString => Some (a, b)
        | _ => None
        end
      else None
  | _ => None
  end.

(** ** The process and its environment *)

(** Arguments of a printf-style diagnostic, kept unformatted. *)
Inductive arg : Type :=
| ArgInt (n : Z)
| ArgStr (s : string)
| ArgErrno (e : Z).      (* strerror(e) *)

Inductive oflag : Type := O_RDONLY | O_WRONLY | O_NONBLOCK.

(** Everything the process does that is visible outside the object. *)
Inductive event : Type :=
| EvOpen (path : string) (flags : list oflag) (r : Z)
| EvClose (fd : Z)
| EvRead (fd : Z) (r : Z)
| EvWrite (fd : Z) (byte : ascii) (r : Z)
| EvInfo (fmt : string) (args : list arg)
| EvWarning (fmt : string) (args : list arg)
| EvFatal (fmt : string) (args : list arg).

(** The answer of a system call: its return value and the [errno] it leaves
    when that value is negative. *)
Record io_result : Type := mk_io { io_ret : Z; io_errno : Z }.

(** The kernel is an oracle: [os_read k] is the answer to the [k]-th [read]
    of the run, and likewise for [open] and [write].  The oracle always
    answers: a system call that never returns (a [read] on a descriptor left
    in blocking mode, with nothing to read) is outside the model, and every
    statement below is about runs in which each system call returns. *)
Record World : Type := mkWorld {
  os_open : nat -> io_result;
  os_read : nat -> io_result;
  os_write : nat -> io_result;
  opens_done : nat;
  reads_done : nat;
  writes_done : nat;
  errno : Z;
  trace : list event
}.

(** ** The object (src/jobserver.h) *)

Record Jobserver : Type := mkJobserver {
  token_count_ : Z;
  jobserver_name_ : string;
  jobserver_closed_ : bool;
  jobserver_fifo_ : bool;
  rfd_ : Z;
  wfd_ : Z
}.

(** The default member initializers of the struct. *)
Definition Jobserver_init : Jobserver :=
  mkJobserver 0 "" false false (-1) (-1).

Definition with_token_count (n : Z) (s : Jobserver) : Jobserver :=
  mkJobserver n (jobserver_name_ s) (jobserver_closed_ s)
              (jobserver_fifo_ s) (rfd_ s) (wfd_ s).

Definition with_closed (b : bool) (s : Jobserver) : Jobserver :=
  mkJobserver (token_count_ s) (jobserver_name_ s) b
              (jobserver_fifo_ s) (rfd_ s) (wfd_ s).

(** ** The monad of member functions *)

Inductive outcome (A : Type) : Type :=
| Done (a : A) (s : Jobserver) (w : World)   (* returned normally *)
| Exited (w : World)                         (* Fatal() ended the process *)
| OutOfFuel.                                 (* a loop of the model ran dry *)
Arguments Done {A} a s w.
Arguments Exited {A} w.
Arguments OutOfFuel {A}.

Definition M (A : Type) : Type := Jobserver -> World -> outcome A.

Definition ret {A} (a : A) : M A := fun s w => Done a s w.

Definition bind {A B} (m : M A) (k : A -> M B) : M B :=
  fun s w =>
    match m s w with
    | Done a s' w' => k a s' w'
    | Exited w' => Exited w'
    | OutOfFuel => OutOfFuel
    end.

Notation "x <- c1 ;; c2" := (bind c1 (fun x => c2))
  (at level 61, c1 at next level, right associativity).
Notation "c1 ;; c2" := (bind c1 (fun _ => c2))
  (at level 61, right associativity).

(** [if (b) body;] *)
Definition when (b : bool) (body : M unit) : M unit :=
  if b then body else ret tt.

(** Reading and writing the members of [*this]. *)
Definition gets {A} (f : Jobserver -> A) : M A := fun s w => Done (f s) s w.

Definition set_token_count_ (v : Z) : M unit :=
  fun s w => Done tt (mkJobserver v (jobserver_name_ s) (jobserver_closed_ s)
                                  (jobserver_fifo_ s) (rfd_ s) (wfd_ s)) w.
Definition set_jobserver_name_ (v : string) : M unit :=
  fun s w => Done tt (mkJobserver (token_count_ s) v (jobserver_closed_ s)
                                  (jobserver_fifo_ s) (rfd_ s) (wfd_ s)) w.
Definition set_jobserver_closed_ (v : bool) : M unit :=
  fun s w => Done tt (mkJobserver (token_count_ s) (jobserver_name_ s) v
                                  (jobserver_fifo_ s) (rfd_ s) (wfd_ s)) w.
Definition set_jobserver_fifo_ (v : bool) : M unit :=
  fun s w => Done tt (mkJobserver (token_count_ s) (jobserver_name_ s)
                                  (jobserver_closed_ s) v (rfd_ s) (wfd_ s)) w.
Definition set_rfd_ (v : Z) : M unit :=
  fun s w => Done tt (mkJobserver (token_count_ s) (jobserver_name_ s)
                                  (jobserver_closed_ s) (jobserver_fifo_ s)
                                  v (wfd_ s)) w.
Definition set_wfd_ (v : Z) : M unit :=
  fun s w => Done tt (mkJobserver (token_count_ s) (jobserver_name_ s)
                                  (jobserver_closed_ s) (jobserver_fifo_ s)
                                  (rfd_ s) v) w.

(** ** System calls *)

Definition log (e : event) (w : World) : World :=
  mkWorld (os_open w) (os_read w) (os_write w)
          (opens_done w) (reads_done w) (writes_done w)
          (errno w) (trace w ++ [e]).

(** A call that fails (negative return) stores its error in [errno]; one
    that succeeds leaves [errno] alone. *)
Definition errno_after (r : io_result) (old : Z) : Z :=
  if io_ret r <? 0 then io_errno r else old.

Definition get_errno : M Z := fun s w => Done (errno w) s w.

(** [open(path, flags)] *)
Definition sys_open (path : string) (flags : list oflag) : M Z :=
  fun s w =>
    let r := os_open w (opens_done w) in
    Done (io_ret r) s
         (mkWorld (os_open w) (os_read w) (os_write w)
                  (S (opens_done w)) (reads_done w) (writes_done w)
                  (errno_after r (errno w))
                  (trace w ++ [EvOpen path flags (io_ret r)])).

(** [read(fd, &token, 1)] *)
Definition sys_read (fd : Z) : M Z :=
  fun s w =>
    let r := os_read w (reads_done w) in
    Done (io_ret r) s
         (mkWorld (os_open w) (os_read w) (os_write w)
                  (opens_done w) (S (reads_done w)) (writes_done w)
                  (errno_after r (errno w))
                  (trace w ++ [EvRead fd (io_ret r)])).

(** [write(fd, &token, 1)] *)
Definition sys_write (fd : Z) (byte : ascii) : M Z :=
  fun s w =>
    let r := os_write w (writes_done w) in
    Done (io_ret r) s
         (mkWorld (os_open w) (os_read w) (os_write w)
                  (opens_done w) (reads_done w) (S (writes_done w))
                  (errno_after r (errno w))
                  (trace w ++ [EvWrite fd byte (io_ret r)])).

(** [close(fd)]; the program ignores its result. *)
Definition sys_close (fd : Z) : M unit :=
  fun s w => Done tt s (log (EvClose fd) w).

(** The world after [sscanf] has scanned [s]. *)
Definition after_sscanf (s : string) (w : World) : World :=
  if sscanf_erange s then
    mkWorld (os_open w) (os_read w) (os_write w)
            (opens_done w) (reads_done w) (writes_done w)
            ERANGE (trace w)
  else w.

(** ** Diagnostics (util.h) *)

(** Modelled from the spec: [Info], [Warning] and [Fatal] are declared in
    util.h, which is not among the sources.  The spec treats them as abstract
    sinks of three severities, of which "Fatal always terminates the
    process"; the other two return to the caller. *)
Definition Info (fmt : string) (args : list arg) : M unit :=
  fun s w => Done tt s (log (EvInfo fmt args) w).
Definition Warning (fmt : string) (args : list arg) : M unit :=
  fun s w => Done tt s (log (EvWarning fmt args) w).
Definition Fatal {A} (fmt : string) (args : list arg) : M A :=
  fun s w => Exited (log (EvFatal fmt args) w).

(** ** Counting the I/O of a trace *)

Definition is_read (e : event) : bool :=
  match e with EvRead _ _ => true | _ => false end.
Definition is_write (e : event) : bool :=
  match e with EvWrite _ _ _ => true | _ => false end.
Definition is_warning (e : event) : bool :=
  match e with EvWarning _ _ => true | _ => false end.

Definition reads_in (t : list event) : nat := length (filter is_read t).
Definition writes_in (t : list event) : nat := length (filter is_write t).

Section Client.

(** The two "try again" error numbers of <errno.h>; their values depend on
    the platform (on Linux both are 11). *)
Variables EAGAIN EWOULDBLOCK : Z.

(** ** Jobserver::Enabled *)
Definition Enabled (s : Jobserver) : bool :=
  (0 <=? rfd_ s) && (0 <=? wfd_ s).

(** ** Jobserver::Acquire *)
Definition Acquire : M bool :=
  token_count <- gets token_count_ ;;
  closed <- gets jobserver_closed_ ;;
  if (token_count <=? 0) || closed then
    set_token_count_ 1 ;;
    ret true
  else
    rfd <- gets rfd_ ;;
    r <- sys_read rfd ;;
    e <- get_errno ;;
    when ((r <? 0) && negb (e =? EAGAIN) && negb (e =? EWOULDBLOCK))
      (set_jobserver_closed_ true ;;
       fifo <- gets jobserver_fifo_ ;;
       if negb fifo then
         Warning "pipe closed: %d (mark the command as recursive)" [ArgInt rfd]
       else
         Fatal "failed to read from jobserver: %d: %s" [ArgInt rfd; ArgErrno e]) ;;
    when (0 <? r)
      (n <- gets token_count_ ;; set_token_count_ (wrap_int (n + 1))) ;;
    ret (0 <? r).

(** ** Jobserver::Release *)
Definition Release : M unit :=
  n <- gets token_count_ ;;
  when (n <? 0) (set_token_count_ 0) ;;
  n <- gets token_count_ ;;
  when (0 <? n) (set_token_count_ (n - 1)) ;;
  n <- gets token_count_ ;;
  closed <- gets jobserver_closed_ ;;
  if (n =? 0) || closed then
    ret tt
  else
    wfd <- gets wfd_ ;;
    r <- sys_write wfd "+"%char ;;
    e <- get_errno ;;
    when (negb (r =? 1))
      (Fatal "failed to write to jobserver: %d: %s" [ArgInt wfd; ArgErrno e]).

(** ** Jobserver::Clear *)

(** [while (token_count_) Release();] with the number of iterations bounded
    by [fuel]. *)
Fixpoint Clear_loop (fuel : nat) : M unit :=
  fun s w =>
    if token_count_ s =? 0 then Done tt s w
    else
      match fuel with
      | O => OutOfFuel
      | S fuel' => (Release ;; Clear_loop fuel') s w
      end.

(** Each [Release] brings a non-zero count closer to zero (a negative one
    straight to zero), so [|token_count_|] iterations are enough. *)
Definition Clear : M unit :=
  fun s w => Clear_loop (Z.to_nat (Z.abs (token_count_ s))) s w.

(** ** Jobserver::Jobserver *)

(** [sscanf(jobserver, "%d,%d", &rfd_, &wfd_)] *)
Definition sscanf_rfd_wfd (jobserver : string) : M Z :=
  fun s w =>
    match sscanf_d_comma_d jobserver (rfd_ s) (wfd_ s) with
    | (n, r, w') =>
        Done n (mkJobserver (token_count_ s) (jobserver_name_ s)
                            (jobserver_closed_ s) (jobserver_fifo_ s) r w')
             (after_sscanf jobserver w)
    end.

(** Lines 67-97, reached with a non-empty [flag_].  [jobserver] points at the
    characters of [jobserver_name_], which holds no NUL. *)
Definition Jobserver_attach (flag_ : string) : M unit :=
  set_jobserver_name_ flag_ ;;
  jobserver <- gets jobserver_name_ ;;
  when (starts_with FIFO_KEY jobserver) (set_jobserver_fifo_ true) ;;
  fifo <- gets jobserver_fifo_ ;;
  unknown <- (if negb fifo then
                n <- sscanf_rfd_wfd jobserver ;; ret (negb (n =? 2))
              else ret false) ;;
  if unknown then
    Warning "invalid jobserver value: '%s'" [ArgStr jobserver]
  else
    when fifo
      (r <- sys_open (substr (String.length FIFO_KEY) jobserver)
                     [O_RDONLY; O_NONBLOCK] ;;
       set_rfd_ r ;;
       r <- sys_open (substr (String.length FIFO_KEY) jobserver) [O_WRONLY] ;;
       set_wfd_ r) ;;
    rfd <- gets rfd_ ;;
    wfd <- gets wfd_ ;;
    (if (0 <=? rfd) && (0 <=? wfd) then
       Info "using jobserver: %s" [ArgStr jobserver]
     else if (rfd =? -1) || (wfd =? -1) then
       e <- get_errno ;;
       Fatal "failed to open jobserver: %s: %s"
             [ArgStr jobserver;
              if e =? 0 then ArgStr "No such file or directory" else ArgErrno e]
     else
       set_jobserver_closed_ true) ;;
    set_token_count_ (-1).

(** The constructor body; [MAKEFLAGS] is what [getenv] returns, [None] for a
    null pointer.  The object starts as [Jobserver_init], on which the
    opening [assert(!Enabled())] holds. *)
Definition Jobserver_ctor (MAKEFLAGS : option string) : M unit :=
  match MAKEFLAGS with
  | None => ret tt
  | Some raw =>
      let makeflags := c_str raw in
      if strlen makeflags =? 0 then ret tt
      else
        let flag_ := flag_value makeflags in
        if empty flag_ then ret tt
        else Jobserver_attach flag_
  end.

(** ** Jobserver::~Jobserver *)
Definition Jobserver_dtor : M unit :=
  Clear ;;
  rfd <- gets rfd_ ;;
  when (0 <=? rfd) (sys_close rfd) ;;
  wfd <- gets wfd_ ;;
  when (0 <=? wfd) (sys_close wfd) ;;
  set_rfd_ (-1) ;;
  set_wfd_ (-1).

(** ** Sequences of calls made by the scheduler *)

Inductive call : Type := CallAcquire | CallRelease | CallClear.

(** Runs the calls in order and collects what each [Acquire] returned. *)
Fixpoint run (calls : list call) : M (list bool) :=
  match calls with
  | [] => ret []
  | CallAcquire :: rest => b <- Acquire ;; bs <- run rest ;; ret (b :: bs)
  | CallRelease :: rest => Release ;; run rest
  | CallClear :: rest => Clear ;; run rest
  end.

(** [n] calls of [Release] in a row. *)
Fixpoint Release_times (n : nat) : M unit :=
  match n with
  | O => ret tt
  | S n' => Release ;; Release_times n'
  end.

(** ** Vocabulary of the statements *)

Ltac unfold_m :=
  unfold bind, gets, ret, when, get_errno,
    set_token_count_, set_jobserver_closed_, set_jobserver_name_,
    set_jobserver_fifo_, set_rfd_, set_wfd_,
    sys_read, sys_write, sys_open, sys_close,
    Warning, Info, Fatal; cbn [token_count_ jobserver_name_
    jobserver_closed_ jobserver_fifo_ rfd_ wfd_ errno trace os_read os_write
    os_open reads_done writes_done opens_done].

Ltac break_match :=
  match goal with
  | |- context [if ?c then _ else _] => destruct c eqn:?
  | |- context [match ?x with (_, _) => _ end] => destruct x eqn:?
  end.

(** The world after one [read] on [fd]. *)
Definition world_after_read (fd : Z) (w : World) : World :=
  let r := os_read w (reads_done w) in
  mkWorld (os_open w) (os_read w) (os_write w)
          (opens_done w) (S (reads_done w)) (writes_done w)
          (errno_after r (errno w))
          (trace w ++ [EvRead fd (io_ret r)]).

(** The world after one [write] of the token byte on [fd]. *)
Definition world_after_write (fd : Z) (w : World) : World :=
  let r := os_write w (writes_done w) in
  mkWorld (os_open w) (os_read w) (os_write w)
          (opens_done w) (reads_done w) (S (writes_done w))
          (errno_after r (errno w))
          (trace w ++ [EvWrite fd "+"%char (io_ret r)]).

(** A read failure that is not "try again". *)
Definition hard_error (r : io_result) : bool :=
  (io_ret r <? 0) && negb (io_errno r =? EAGAIN)
                  && negb (io_errno r =? EWOULDBLOCK).

(** The world after [n] writes of the token byte on [fd]. *)
Definition world_after_writes (fd : Z) (n : nat) (w : World) : World :=
  Nat.iter n (world_after_write fd) w.

(** The number of [Acquire] calls in a sequence. *)
Fixpoint acquires (calls : list call) : nat :=
  match calls with
  | [] => O
  | CallAcquire :: rest => S (acquires rest)
  | _ :: rest => acquires rest
  end.

(** The disabled pool address: no MAKEFLAGS at all, or no non-empty
    jobserver value in it. *)
Definition disabled_address (MAKEFLAGS : option string) : Prop :=
  match MAKEFLAGS with
  | None => True
  | Some raw => flag_value (c_str raw) = EmptyString
  end.

(** The warning of [Acquire] on a failed read. *)
Definition pipe_closed_warning (fd : Z) : event :=
  EvWarning "pipe closed: %d (mark the command as recursive)" [ArgInt fd].

(** What the constructor does with a pair of descriptors it scanned. *)
Definition adopt_pair (v : string) (r wf : Z) (w : World) : outcome unit :=
  if (0 <=? r) && (0 <=? wf) then
    Done tt (mkJobserver (-1) v false false r wf)
         (log (EvInfo "using jobserver: %s" [ArgStr v]) w)
  else if (r =? -1) || (wf =? -1) then
    Exited (log (EvFatal "failed to open jobserver: %s: %s"
                         [ArgStr v;
                          if errno w =? 0
                          then ArgStr "No such file or directory"
                          else ArgErrno (errno w)]) w)
  else
    Done tt (mkJobserver (-1) v true false r wf) w.

(** What it does with a value it cannot scan; [r] is what the scan left in
    [rfd_]. *)
Definition reject_value (v : string) (r : Z) (w : World) : outcome unit :=
  Done tt (mkJobserver 0 v false false r (-1))
       (log (EvWarning "invalid jobserver value: '%s'" [ArgStr v]) w).

Fixpoint all_chars (p : ascii -> bool) (s : string) : bool :=
  match s with
  | EmptyString => true
  | String c s' => p c && all_chars p s'
  end.

(** The number written by a run of digits, continuing from [acc]. *)
Fixpoint decimal_value (ds : string) (acc : Z) : Z :=
  match ds with
  | EmptyString => acc
  | String c ds' => decimal_value ds' (10 * acc + digit_value c)
  end.

Inductive sign_text : string -> bool -> Prop :=
| sign_none : sign_text "" false
| sign_plus : sign_text "+" false
| sign_minus : sign_text "-" true.

(** [t] is an integer as [%d] reads it: white space, an optional sign, one
    or more digits; [v] is the [int] it stores. *)
Definition integer_text (t : string) (v : Z) : Prop :=
  exists (ws sg ds : string) (neg : bool),
    t = (ws ++ sg ++ ds)%string /\
    all_chars isspace ws = true /\
    sign_text sg neg /\
    ds <> EmptyString /\
    all_chars isdigit ds = true /\
    v = to_int (if neg then - decimal_value ds 0 else decimal_value ds 0).

(** [s] begins with an integer, a comma and a second integer; what follows
    the last digit is arbitrary. *)
Definition pair_prefix (s : string) (r wf : Z) : Prop :=
  exists t1 t2 rest : string,
    s = (t1 ++ "," ++ t2 ++ rest)%string /\
    integer_text t1 r /\
    integer_text t2 wf /\
    starts_with_digit rest = false.

(** Three concrete kernels, for the examples.  In [world_tokens] every read
    delivers a token, every write succeeds and [open] returns descriptor 3; in
    [world_eof] every read returns 0; in [world_bad_fd] every read fails with
    EBADF (9). *)
Definition world_tokens : World :=
  mkWorld (fun _ => mk_io 3 0) (fun _ => mk_io 1 0) (fun _ => mk_io 1 0)
          0 0 0 0 [].

Definition world_eof : World :=
  mkWorld (fun _ => mk_io 3 0) (fun _ => mk_io 0 0) (fun _ => mk_io 1 0)
          0 0 0 0 [].

Definition world_bad_fd : World :=
  mkWorld (fun _ => mk_io 3 0) (fun _ => mk_io (-1) 9) (fun _ => mk_io 1 0)
          0 0 0 0 [].

(** ** Token accounting *)

(** A [read] that delivered a token. *)
Definition is_token_read (e : event) : bool :=
  match e with EvRead _ r => 0 <? r | _ => false end.

Definition tokens_in (t : list event) : nat :=
  length (filter is_token_read t).

(** The books of the client.  While the channel is open, the tokens read
    from it are the ones written back plus the ones held beyond the implicit
    token; once it is closed, only the inequality is left. *)
Definition balanced (s : Jobserver) (w : World) : Prop :=
  if jobserver_closed_ s then
    (writes_in (trace w) <= tokens_in (trace w))%nat
  else
    Z.of_nat (tokens_in (trace w))
    = Z.of_nat (writes_in (trace w)) + Z.max (token_count_ s) 1 - 1.

(** The books after a call, whether it returned or ended the process;
    [bound] limits the count it may leave. *)
Definition balanced_outcome {A} (bound : Z) (o : outcome A) : Prop :=
  match o with
  | Done _ s w => balanced s w /\ Z.max (token_count_ s) 0 <= bound
  | Exited w => (writes_in (trace w) <= tokens_in (trace w))%nat
  | OutOfFuel => False
  end.

(** ** What the calls leave alone *)

(** The members that describe the channel. *)
Definition same_channel (s s' : Jobserver) : Prop :=
  jobserver_name_ s' = jobserver_name_ s /\
  jobserver_fifo_ s' = jobserver_fifo_ s /\
  rfd_ s' = rfd_ s /\
  wfd_ s' = wfd_ s.

(** The events [Acquire], [Release] and [Clear] may cause: a read on
    [rfd_], a write of the byte [+] on [wfd_], a warning or a fatal
    diagnostic. *)
Definition channel_event (s : Jobserver) (e : event) : Prop :=
  match e with
  | EvRead fd _ => fd = rfd_ s
  | EvWrite fd byte _ => fd = wfd_ s /\ byte = "+"%char
  | EvWarning _ _ | EvFatal _ _ => True
  | EvOpen _ _ _ | EvClose _ | EvInfo _ _ => False
  end.

(** An outcome reached from [s] and [w] with channel events only, at most
    [reads] of them reads, the channel members as they were and the closed
    mark not taken back. *)
Definition framed {A} (s : Jobserver) (w : World) (reads : nat)
    (o : outcome A) : Prop :=
  match o with
  | Done _ s' w' =>
      same_channel s s' /\
      (jobserver_closed_ s = true -> jobserver_closed_ s' = true) /\
      exists evs, trace w' = trace w ++ evs /\
                  Forall (channel_event s) evs /\
                  (reads_in evs <= reads)%nat
  | Exited w' =>
      exists evs, trace w' = trace w ++ evs /\
                  Forall (channel_event s) evs /\
                  (reads_in evs <= reads)%nat
  | OutOfFuel => False
  end.

(** ** Construction on a named pipe *)

(** The world after one [open] of [path]. *)
Definition world_after_open (path : string) (flags : list oflag)
    (w : World) : World :=
  let r := os_open w (opens_done w) in
  mkWorld (os_open w) (os_read w) (os_write w)
          (S (opens_done w)) (reads_done w) (writes_done w)
          (errno_after r (errno w))
          (trace w ++ [EvOpen path flags (io_ret r)]).

(** What the constructor does with the two descriptors [open] returned for
    a named pipe. *)
Definition adopt_fifo (v : string) (r wf : Z) (w : World) : outcome unit :=
  if (0 <=? r) && (0 <=? wf) then
    Done tt (mkJobserver (-1) v false true r wf)
         (log (EvInfo "using jobserver: %s" [ArgStr v]) w)
  else if (r =? -1) || (wf =? -1) then
    Exited (log (EvFatal "failed to open jobserver: %s: %s"
                         [ArgStr v;
                          if errno w =? 0
                          then ArgStr "No such file or directory"
                          else ArgErrno (errno w)]) w)
  else
    Done tt (mkJobserver (-1) v true true r wf) w.

(** The events of a construction: opens and diagnostics. *)
Definition is_io (e : event) : bool :=
  match e with
  | EvRead _ _ | EvWrite _ _ _ | EvClose _ => true
  | _ => false
  end.

(** ** Words *)

(** [Tokens()] (src/jobserver.h) *)
Definition Tokens (s : Jobserver) : Z := token_count_ s.

Definition not_blank (c : ascii) : bool := negb (isblank c).

(** A word of the flag string: not empty, no blank in it. *)
Definition is_word (s : string) : Prop :=
  s <> EmptyString /\ all_chars not_blank s = true.

(** Words written one after the other with a space between them. *)
Fixpoint join_words (ws : list string) : string :=
  match ws with
  | [] => EmptyString
  | [word] => word
  | word :: rest => (word ++ " " ++ join_words rest)%string
  end.

(** The world after [n] reads on [fd]. *)
Definition world_after_reads (fd : Z) (n : nat) (w : World) : World :=
  Nat.iter n (world_after_read fd) w.

(** Two more kernels for the examples: in [world_busy] the first two reads
    fail with EAGAIN (11) and the later ones deliver a token; in
    [world_broken_pipe] the first write succeeds and the later ones fail
    with EPIPE (32). *)
Definition world_busy : World :=
  mkWorld (fun _ => mk_io 3 0)
          (fun k => if (k <? 2)%nat then mk_io (-1) 11 else mk_io 1 0)
          (fun _ => mk_io 1 0)
          0 0 0 0 [].

Definition world_broken_pipe : World :=
  mkWorld (fun _ => mk_io 3 0)
          (fun _ => mk_io 1 0)
          (fun k => if (k <? 1)%nat then mk_io 1 0 else mk_io (-1) 32)
          0 0 0 0 [].

Ltac framed_events :=
  eexists; split;
    [cbn [log world_after_read world_after_write trace];
     rewrite <- ?app_assoc; reflexivity |];
  split; [repeat constructor; cbn; auto | cbn; lia].

(** * Properties *)

(** ** Single calls *)

Lemma Acquire_fast (s : Jobserver) (w : World) :
  ((token_count_ s <=? 0) || jobserver_closed_ s) = true ->
  Acquire s w = Done true (with_token_count 1 s) w.
Proof.
  intros H. unfold Acquire. unfold_m. rewrite H. reflexivity.
Qed.

Lemma Acquire_slow (s : Jobserver) (w : World) :
  ((token_count_ s <=? 0) || jobserver_closed_ s) = false ->
  Acquire s w =
    let r := os_read w (reads_done w) in
    let w1 := world_after_read (rfd_ s) w in
    if hard_error r then
      if jobserver_fifo_ s then
        Exited (log (EvFatal "failed to read from jobserver: %d: %s"
                             [ArgInt (rfd_ s); ArgErrno (io_errno r)]) w1)
      else
        Done false (with_closed true s)
             (log (EvWarning "pipe closed: %d (mark the command as recursive)"
                             [ArgInt (rfd_ s)]) w1)
    else if 0 <? io_ret r then
      Done true (with_token_count (wrap_int (token_count_ s + 1)) s) w1
    else Done false s w1.
Proof.
  intros H. unfold Acquire. unfold_m. rewrite H.
  unfold hard_error, world_after_read, errno_after, with_closed,
    with_token_count.
  cbv zeta. destruct s as [n name closed fifo rfd wfd]. cbn.
  destruct (io_ret (os_read w (reads_done w)) <? 0) eqn:Hneg; cbn [andb].
  - assert (Hpos : (0 <? io_ret (os_read w (reads_done w))) = false)
      by (apply Z.ltb_lt in Hneg; apply Z.ltb_ge; lia).
    rewrite Hpos.
    destruct (negb (io_errno (os_read w (reads_done w)) =? EAGAIN)
              && negb (io_errno (os_read w (reads_done w)) =? EWOULDBLOCK));
      cbn; [destruct fifo; reflexivity | reflexivity].
  - destruct (0 <? io_ret (os_read w (reads_done w))); reflexivity.
Qed.

Lemma Release_eq (s : Jobserver) (w : World) :
  Release s w =
    let n := if token_count_ s <? 0 then 0
             else if 0 <? token_count_ s then token_count_ s - 1
             else token_count_ s in
    if (n =? 0) || jobserver_closed_ s then Done tt (with_token_count n s) w
    else
      let w1 := world_after_write (wfd_ s) w in
      if io_ret (os_write w (writes_done w)) =? 1 then
        Done tt (with_token_count n s) w1
      else
        Exited (log (EvFatal "failed to write to jobserver: %d: %s"
                             [ArgInt (wfd_ s); ArgErrno (errno w1)]) w1).
Proof.
  unfold Release. unfold_m. unfold world_after_write, with_token_count.
  cbv zeta. destruct s as [n name closed fifo rfd wfd]. cbn.
  destruct (n <? 0) eqn:Hneg; cbn.
  - reflexivity.
  - destruct (0 <? n) eqn:Hpos; cbn.
    + destruct ((n - 1 =? 0) || closed); cbn; [reflexivity |].
      destruct (io_ret (os_write w (writes_done w)) =? 1); reflexivity.
    + destruct ((n =? 0) || closed); cbn; [reflexivity |].
      destruct (io_ret (os_write w (writes_done w)) =? 1); reflexivity.
Qed.

(** The assertion that opens the constructor. *)
Lemma Jobserver_init_not_enabled : Enabled Jobserver_init = false.
Proof. reflexivity. Qed.

(** After construction the count is 0 (disabled) or -1 (attached). *)
Lemma Jobserver_attach_count (flag_ : string) (s s1 : Jobserver)
    (w w1 : World) :
  token_count_ s = 0 ->
  Jobserver_attach flag_ s w = Done tt s1 w1 ->
  token_count_ s1 = 0 \/ token_count_ s1 = -1.
Proof.
  intros H0. unfold Jobserver_attach, sscanf_rfd_wfd. unfold_m.
  destruct s as [n name closed fifo rfd wfd]. cbn in *. subst n.
  repeat (break_match; cbn);
    intros E; inversion E; subst; cbn; auto.
Qed.

Lemma Jobserver_ctor_count (MAKEFLAGS : option string) (s1 : Jobserver)
    (w w1 : World) :
  Jobserver_ctor MAKEFLAGS Jobserver_init w = Done tt s1 w1 ->
  token_count_ s1 = 0 \/ token_count_ s1 = -1.
Proof.
  unfold Jobserver_ctor. destruct MAKEFLAGS as [raw |].
  - destruct (strlen (c_str raw) =? 0).
    + intros E; inversion E; subst; auto.
    + destruct (empty (flag_value (c_str raw))).
      * intros E; inversion E; subst; auto.
      * apply Jobserver_attach_count. reflexivity.
  - intros E; inversion E; subst; auto.
Qed.

(** The first [Acquire] after any construction that returned takes the
    implicit token without touching the channel. *)
Lemma first_Acquire_after_ctor (MAKEFLAGS : option string) (s1 : Jobserver)
    (w w1 : World) :
  Jobserver_ctor MAKEFLAGS Jobserver_init w = Done tt s1 w1 ->
  Acquire s1 w1 = Done true (with_token_count 1 s1) w1.
Proof.
  intros H. apply Jobserver_ctor_count in H. apply Acquire_fast.
  apply orb_true_iff. left. apply Z.leb_le. lia.
Qed.

(** C1: in every state with [token_count_ <= 0] or [jobserver_closed_] set,
    [Acquire] returns true, leaves [token_count_] at 1 and every other member
    as it was, and leaves the world untouched: no read is made, whatever the
    channel would have answered.  The state [token_count_ = -1] reached by a
    successful initialization is one of them. *)
Theorem C1_Acquire_implicit_token (s : Jobserver) (w : World)
    (H : token_count_ s <= 0 \/ jobserver_closed_ s = true) :
  Acquire s w = Done true (with_token_count 1 s) w.
Proof.
  apply Acquire_fast. apply orb_true_iff.
  destruct H as [H | H]; [left; apply Z.leb_le; exact H | right; exact H].
Qed.

(** C7: [Release] in a state with a negative [token_count_] (the value -1
    left by the constructor) returns with [token_count_ = 0], every other
    member unchanged and the world untouched: nothing is written. *)
Theorem C7_Release_before_first_token (s : Jobserver) (w : World)
    (H : token_count_ s < 0) :
  Release s w = Done tt (with_token_count 0 s) w.
Proof.
  rewrite Release_eq. cbv zeta.
  apply Z.ltb_lt in H. rewrite H. reflexivity.
Qed.

(** One [Acquire] whose read returns 0. *)
Lemma Acquire_read_zero (s : Jobserver) (w : World) :
  0 < token_count_ s ->
  jobserver_closed_ s = false ->
  io_ret (os_read w (reads_done w)) = 0 ->
  Acquire s w =
    Done false s
         (mkWorld (os_open w) (os_read w) (os_write w)
                  (opens_done w) (S (reads_done w)) (writes_done w)
                  (errno w) (trace w ++ [EvRead (rfd_ s) 0])).
Proof.
  intros Hn Hc H0. rewrite Acquire_slow.
  - cbv zeta. unfold hard_error, world_after_read, errno_after.
    rewrite H0. reflexivity.
  - rewrite Hc, orb_false_r. apply Z.leb_gt. exact Hn.
Qed.

(** C9: when the channel is open and a token is held, an [Acquire] whose read
    returns 0 bytes returns false and changes nothing in the object: the
    channel is not marked closed and the count stays.  The only event is the
    read itself (no diagnostic), and [errno] is left alone.  This repeats for
    as long as the reads keep returning 0: [n] such calls in a row all
    return false and leave the object as it was. *)
Theorem C9_Acquire_end_of_file (n : nat) (s : Jobserver) (w : World)
    (Hcount : 0 < token_count_ s)
    (Hopen : jobserver_closed_ s = false)
    (Heof : forall k, (k < n)%nat ->
              io_ret (os_read w (reads_done w + k)%nat) = 0) :
  exists w',
    run (repeat CallAcquire n) s w = Done (repeat false n) s w' /\
    trace w' = trace w ++ repeat (EvRead (rfd_ s) 0) n /\
    filter is_warning (trace w') = filter is_warning (trace w) /\
    errno w' = errno w /\
    writes_done w' = writes_done w.
Proof.
  revert w Heof. induction n as [| n IH]; intros w Heof.
  - exists w. cbn. rewrite app_nil_r. auto.
  - assert (H0 : io_ret (os_read w (reads_done w)) = 0).
    { specialize (Heof 0%nat). rewrite Nat.add_0_r in Heof.
      apply Heof. lia. }
    pose proof (Acquire_read_zero s w Hcount Hopen H0) as HA.
    set (w1 := mkWorld (os_open w) (os_read w) (os_write w)
                  (opens_done w) (S (reads_done w)) (writes_done w)
                  (errno w) (trace w ++ [EvRead (rfd_ s) 0])) in *.
    destruct (IH w1) as [w' (Hrun & Htr & Hwarn & Herr & Hwr)].
    { intros k Hk. cbn. specialize (Heof (S k)).
      rewrite Nat.add_succ_r in Heof. apply Heof. lia. }
    exists w'. cbn [repeat run]. unfold bind at 1. rewrite HA.
    unfold bind at 1. rewrite Hrun. unfold ret.
    repeat split; auto.
    + rewrite Htr. cbn. rewrite <- app_assoc. reflexivity.
    + rewrite Hwarn. cbn. rewrite filter_app. cbn. apply app_nil_r.
Qed.

(** ** Clear *)

Lemma with_token_count_same (s : Jobserver) :
  with_token_count (token_count_ s) s = s.
Proof. destruct s; reflexivity. Qed.

Lemma Clear_loop_zero (fuel : nat) (s : Jobserver) (w : World) :
  token_count_ s = 0 -> Clear_loop fuel s w = Done tt s w.
Proof.
  intros H. destruct fuel; cbn; rewrite H; reflexivity.
Qed.

(** With the channel marked closed [Release] never writes. *)
Lemma Release_closed (s : Jobserver) (w : World) :
  jobserver_closed_ s = true ->
  Release s w =
    Done tt (with_token_count (if token_count_ s <? 0 then 0
                               else if 0 <? token_count_ s
                                    then token_count_ s - 1
                                    else token_count_ s) s) w.
Proof.
  intros Hc. rewrite Release_eq. cbv zeta. rewrite Hc, orb_true_r.
  reflexivity.
Qed.

Lemma Clear_loop_closed (fuel : nat) (s : Jobserver) (w : World) :
  jobserver_closed_ s = true ->
  (Z.abs (token_count_ s) <= Z.of_nat fuel) ->
  Clear_loop fuel s w = Done tt (with_token_count 0 s) w.
Proof.
  revert s. induction fuel as [| fuel IH]; intros s Hc Hf.
  - assert (H0 : token_count_ s = 0) by lia.
    rewrite Clear_loop_zero by exact H0.
    rewrite <- H0, with_token_count_same. reflexivity.
  - cbn [Clear_loop].
    destruct (token_count_ s =? 0) eqn:Hz.
    + apply Z.eqb_eq in Hz. rewrite <- Hz, with_token_count_same.
      reflexivity.
    + apply Z.eqb_neq in Hz. unfold bind.
      rewrite Release_closed by exact Hc.
      destruct (token_count_ s <? 0) eqn:Hneg.
      * rewrite Clear_loop_zero by reflexivity. reflexivity.
      * apply Z.ltb_ge in Hneg.
        assert (Hpos : (0 <? token_count_ s) = true)
          by (apply Z.ltb_lt; lia).
        rewrite Hpos. rewrite IH.
        -- reflexivity.
        -- exact Hc.
        -- cbn. lia.
Qed.

Lemma Clear_closed (s : Jobserver) (w : World) :
  jobserver_closed_ s = true ->
  Clear s w = Done tt (with_token_count 0 s) w.
Proof.
  intros Hc. unfold Clear. apply Clear_loop_closed; [exact Hc | lia].
Qed.

Lemma Clear_zero (s : Jobserver) (w : World) :
  token_count_ s = 0 -> Clear s w = Done tt s w.
Proof. intros H. unfold Clear. apply Clear_loop_zero. exact H. Qed.

(** A negative count is cleared by one [Release], without I/O. *)
Lemma Clear_negative (s : Jobserver) (w : World) :
  token_count_ s < 0 -> Clear s w = Done tt (with_token_count 0 s) w.
Proof.
  intros H. unfold Clear.
  destruct (Z.to_nat (Z.abs (token_count_ s))) as [| fuel] eqn:Hf; [lia |].
  cbn [Clear_loop].
  destruct (token_count_ s =? 0) eqn:Hz; [apply Z.eqb_eq in Hz; lia |].
  unfold bind. rewrite Release_eq. cbv zeta.
  apply Z.ltb_lt in H. rewrite H. cbn.
  apply Clear_loop_zero. reflexivity.
Qed.

Lemma world_after_writes_S (fd : Z) (n : nat) (w : World) :
  world_after_writes fd (S n) w
  = world_after_writes fd n (world_after_write fd w).
Proof.
  unfold world_after_writes.
  induction n as [| n IH]; [reflexivity |].
  cbn in *. rewrite IH. reflexivity.
Qed.

(** [Release] with more than one token held and a write that transfers its
    byte. *)
Lemma Release_write (s : Jobserver) (w : World) :
  1 < token_count_ s ->
  jobserver_closed_ s = false ->
  io_ret (os_write w (writes_done w)) = 1 ->
  Release s w = Done tt (with_token_count (token_count_ s - 1) s)
                     (world_after_write (wfd_ s) w).
Proof.
  intros Hn Hc Hw. rewrite Release_eq. cbv zeta.
  assert (H1 : (token_count_ s <? 0) = false) by (apply Z.ltb_ge; lia).
  assert (H2 : (0 <? token_count_ s) = true) by (apply Z.ltb_lt; lia).
  assert (H3 : (token_count_ s - 1 =? 0) = false) by (apply Z.eqb_neq; lia).
  rewrite H1, H2, H3, Hc, Hw. reflexivity.
Qed.

(** [Release] of the last token: no write. *)
Lemma Release_last (s : Jobserver) (w : World) :
  token_count_ s = 1 ->
  Release s w = Done tt (with_token_count 0 s) w.
Proof.
  intros Hn. rewrite Release_eq. cbv zeta. rewrite Hn. reflexivity.
Qed.

Lemma world_after_write_fields (fd : Z) (w : World) :
  os_write (world_after_write fd w) = os_write w /\
  writes_done (world_after_write fd w) = S (writes_done w).
Proof. split; reflexivity. Qed.

(** [n + 1] tokens held on an open channel whose next [n] writes succeed:
    [n + 1] calls of [Release] bring the count to zero, the first [n] of
    them writing one byte each. *)
Lemma Release_times_open (n : nat) (s : Jobserver) (w : World) :
  token_count_ s = Z.of_nat (S n) ->
  jobserver_closed_ s = false ->
  (forall k, (k < n)%nat ->
     io_ret (os_write w (writes_done w + k)%nat) = 1) ->
  Release_times (S n) s w =
    Done tt (with_token_count 0 s) (world_after_writes (wfd_ s) n w).
Proof.
  revert s w. induction n as [| n IH]; intros s w Hn Hc Hw.
  - cbn [Release_times]. unfold bind. rewrite Release_last by exact Hn.
    reflexivity.
  - change (Release_times (S (S n))) with (Release ;; Release_times (S n)).
    unfold bind at 1. rewrite Release_write; [| lia | exact Hc |].
    + rewrite IH.
      * rewrite world_after_writes_S. reflexivity.
      * cbn [token_count_ with_token_count]. lia.
      * exact Hc.
      * intros k Hk. cbn [os_write writes_done world_after_write].
        replace (S (writes_done w) + k)%nat with (writes_done w + S k)%nat
          by lia.
        apply Hw. lia.
    + specialize (Hw 0%nat). rewrite Nat.add_0_r in Hw. apply Hw. lia.
Qed.

(** Fewer calls leave tokens behind. *)
Lemma Release_times_partial (k : nat) (s : Jobserver) (w : World) :
  Z.of_nat k < token_count_ s ->
  jobserver_closed_ s = false ->
  (forall j, (j < k)%nat ->
     io_ret (os_write w (writes_done w + j)%nat) = 1) ->
  Release_times k s w =
    Done tt (with_token_count (token_count_ s - Z.of_nat k) s)
         (world_after_writes (wfd_ s) k w).
Proof.
  revert s w. induction k as [| k IH]; intros s w Hn Hc Hw.
  - cbn. rewrite Z.sub_0_r, with_token_count_same. reflexivity.
  - change (Release_times (S k)) with (Release ;; Release_times k).
    unfold bind at 1. rewrite Release_write; [| lia | exact Hc |].
    + rewrite IH.
      * rewrite world_after_writes_S.
        cbn [token_count_ with_token_count wfd_].
        unfold with_token_count at 1. cbn.
        replace (token_count_ s - 1 - Z.of_nat k)
          with (token_count_ s - Z.pos (Pos.of_succ_nat k)) by lia.
        reflexivity.
      * cbn [token_count_ with_token_count]. lia.
      * exact Hc.
      * intros j Hj. cbn [os_write writes_done world_after_write].
        replace (S (writes_done w) + j)%nat with (writes_done w + S j)%nat
          by lia.
        apply Hw. lia.
    + specialize (Hw 0%nat). rewrite Nat.add_0_r in Hw. apply Hw. lia.
Qed.

(** With enough fuel the loop of [Clear] is the right number of
    [Release]s. *)
Lemma Clear_loop_open (n fuel : nat) (s : Jobserver) (w : World) :
  token_count_ s = Z.of_nat (S n) ->
  jobserver_closed_ s = false ->
  (S n <= fuel)%nat ->
  (forall k, (k < n)%nat ->
     io_ret (os_write w (writes_done w + k)%nat) = 1) ->
  Clear_loop fuel s w =
    Done tt (with_token_count 0 s) (world_after_writes (wfd_ s) n w).
Proof.
  revert fuel s w. induction n as [| n IH]; intros fuel s w Hn Hc Hf Hw.
  - destruct fuel as [| fuel]; [lia |]. cbn [Clear_loop].
    rewrite Hn. cbn [Z.eqb Z.of_nat Pos.of_succ_nat].
    unfold bind. rewrite Release_last by exact Hn.
    apply Clear_loop_zero. reflexivity.
  - destruct fuel as [| fuel]; [lia |]. cbn [Clear_loop].
    destruct (token_count_ s =? 0) eqn:Hz; [apply Z.eqb_eq in Hz; lia |].
    unfold bind. rewrite Release_write; [| lia | exact Hc |].
    + rewrite (IH fuel).
      * rewrite world_after_writes_S. reflexivity.
      * cbn [token_count_ with_token_count]. lia.
      * exact Hc.
      * lia.
      * intros k Hk. cbn [os_write writes_done world_after_write].
        replace (S (writes_done w) + k)%nat with (writes_done w + S k)%nat
          by lia.
        apply Hw. lia.
    + specialize (Hw 0%nat). rewrite Nat.add_0_r in Hw. apply Hw. lia.
Qed.

(** The loop of [Clear] never runs out of the fuel [Clear] gives it: it
    either returns or the process has been ended by a failed write. *)
Lemma Clear_loop_enough (fuel : nat) (s : Jobserver) (w : World) :
  Z.abs (token_count_ s) <= Z.of_nat fuel ->
  Clear_loop fuel s w <> OutOfFuel.
Proof.
  revert s w. induction fuel as [| fuel IH]; intros s w Hf.
  - rewrite Clear_loop_zero by lia. discriminate.
  - cbn [Clear_loop].
    destruct (token_count_ s =? 0) eqn:Hz; [discriminate |].
    apply Z.eqb_neq in Hz. unfold bind. rewrite Release_eq. cbv zeta.
    set (n := if token_count_ s <? 0 then 0
              else if 0 <? token_count_ s then token_count_ s - 1
                   else token_count_ s).
    assert (Hn : Z.abs n <= Z.of_nat fuel).
    { subst n. destruct (token_count_ s <? 0) eqn:H1; [lia |].
      destruct (0 <? token_count_ s) eqn:H2.
      - apply Z.ltb_lt in H2. lia.
      - apply Z.ltb_ge in H1, H2. lia. }
    destruct ((n =? 0) || jobserver_closed_ s).
    + apply IH. exact Hn.
    + destruct (io_ret (os_write w (writes_done w)) =? 1).
      * apply IH. exact Hn.
      * discriminate.
Qed.

Lemma Clear_terminates (s : Jobserver) (w : World) :
  Clear s w <> OutOfFuel.
Proof. unfold Clear. apply Clear_loop_enough. lia. Qed.

(** ** Once the channel is marked closed *)

(** In a closed state every call returns without any effect on the world,
    every [Acquire] returns true, and the state stays closed. *)
Lemma run_closed (calls : list call) (s : Jobserver) (w : World) :
  jobserver_closed_ s = true ->
  exists s',
    run calls s w = Done (repeat true (acquires calls)) s' w /\
    jobserver_closed_ s' = true /\
    rfd_ s' = rfd_ s /\ wfd_ s' = wfd_ s.
Proof.
  revert s. induction calls as [| c calls IH]; intros s Hc.
  - exists s. cbn. auto.
  - destruct c; cbn [run acquires repeat]; unfold bind at 1.
    + rewrite Acquire_fast by (rewrite Hc; apply orb_true_r).
      destruct (IH (with_token_count 1 s) Hc) as [s' (Hrun & Hc' & Hr & Hw)].
      exists s'. unfold bind. rewrite Hrun. auto.
    + rewrite Release_closed by exact Hc.
      match goal with |- context [with_token_count ?n s] =>
        destruct (IH (with_token_count n s) Hc) as [s' (Hrun & Hc' & Hr & Hw)]
      end.
      exists s'. auto.
    + rewrite Clear_closed by exact Hc.
      destruct (IH (with_token_count 0 s) Hc) as [s' (Hrun & Hc' & Hr & Hw)].
      exists s'. auto.
Qed.

(** The destructor of a closed client: no read, no write, and the flag
    stays. *)
Lemma Jobserver_dtor_closed (s : Jobserver) (w : World) :
  jobserver_closed_ s = true ->
  exists s' w',
    Jobserver_dtor s w = Done tt s' w' /\
    jobserver_closed_ s' = true /\
    filter is_read (trace w') = filter is_read (trace w) /\
    filter is_write (trace w') = filter is_write (trace w).
Proof.
  intros Hc. unfold Jobserver_dtor. unfold bind at 1.
  rewrite Clear_closed by exact Hc. unfold_m. unfold log.
  destruct s as [n name closed fifo rfd wfd]. cbn in *. subst closed.
  unfold with_token_count, ret. cbn.
  destruct (0 <=? rfd); cbn; destruct (0 <=? wfd); cbn;
    eexists; eexists; (split; [reflexivity |]); cbn;
    rewrite ?filter_app; cbn; rewrite ?app_nil_r; auto.
Qed.

(** C3: on an anonymous pipe ([jobserver_fifo_] false), an [Acquire] whose
    read fails with an error other than EAGAIN / EWOULDBLOCK returns false
    with a warning and marks the channel closed.  From then on every sequence
    of [Acquire], [Release] and [Clear] calls leaves the world exactly as it
    is (no read, and no other I/O), every [Acquire] in it returns true, and
    [jobserver_closed_] is still true afterwards; the destructor keeps it
    true as well and reads nothing. *)
Theorem C3_closed_channel_is_permanent (s : Jobserver) (w : World)
    (Hcount : 0 < token_count_ s)
    (Hopen : jobserver_closed_ s = false)
    (Hpipe : jobserver_fifo_ s = false)
    (Herr : hard_error (os_read w (reads_done w)) = true) :
  exists s1 w1,
    Acquire s w = Done false s1 w1 /\
    jobserver_closed_ s1 = true /\
    trace w1 = trace w
               ++ [EvRead (rfd_ s) (io_ret (os_read w (reads_done w)));
                   EvWarning "pipe closed: %d (mark the command as recursive)"
                             [ArgInt (rfd_ s)]] /\
    forall calls : list call,
    exists s2,
      run calls s1 w1 = Done (repeat true (acquires calls)) s2 w1 /\
      jobserver_closed_ s2 = true /\
      exists s3 w3,
        Jobserver_dtor s2 w1 = Done tt s3 w3 /\
        jobserver_closed_ s3 = true /\
        filter is_read (trace w3) = filter is_read (trace w1).
Proof.
  eexists. eexists. split.
  - rewrite Acquire_slow.
    + cbv zeta. rewrite Herr, Hpipe. reflexivity.
    + rewrite Hopen, orb_false_r. apply Z.leb_gt. exact Hcount.
  - split; [reflexivity |]. split.
    + cbn. rewrite <- app_assoc. reflexivity.
    + intros calls.
      match goal with |- context [run calls ?s1 ?w1] =>
        destruct (run_closed calls s1 w1 eq_refl) as [s2 (Hrun & Hc2 & _)];
        destruct (Jobserver_dtor_closed s2 w1 Hc2)
          as [s3 [w3 (Hd & Hc3 & Hrd & _)]]
      end.
      exists s2. split; [exact Hrun |]. split; [exact Hc2 |].
      exists s3, w3. auto.
Qed.

(** ** Acquiring several tokens, then Clear *)

Lemma wrap_int_small (z : Z) :
  INT_MIN <= z <= INT_MAX -> wrap_int z = z.
Proof.
  unfold INT_MIN, INT_MAX, wrap_int. intros H.
  rewrite Z.mod_small; lia.
Qed.

Lemma run_Acquire_inv (calls : list call) (s s2 : Jobserver) (w w2 : World)
    (bs' : list bool) :
  run (CallAcquire :: calls) s w = Done bs' s2 w2 ->
  exists b bs s1 w1,
    Acquire s w = Done b s1 w1 /\
    run calls s1 w1 = Done bs s2 w2 /\
    bs' = b :: bs.
Proof.
  cbn [run]. unfold bind at 1.
  destruct (Acquire s w) as [b s1 w1 | |]; try discriminate.
  unfold bind at 1.
  destruct (run calls s1 w1) as [bs s2' w2' | |] eqn:Hrest; try discriminate.
  unfold ret. intros E. inversion E; subst.
  exists b, bs, s1, w1. repeat split; auto.
Qed.

(** On an open channel with a token already held, an [Acquire] that returns
    true has read a byte and incremented the count. *)
Lemma Acquire_true_open (s s1 : Jobserver) (w w1 : World) :
  0 < token_count_ s ->
  jobserver_closed_ s = false ->
  Acquire s w = Done true s1 w1 ->
  s1 = with_token_count (wrap_int (token_count_ s + 1)) s /\
  w1 = world_after_read (rfd_ s) w /\
  0 < io_ret (os_read w (reads_done w)).
Proof.
  intros Hn Hc. rewrite Acquire_slow
    by (rewrite Hc, orb_false_r; apply Z.leb_gt; exact Hn).
  cbv zeta.
  destruct (hard_error (os_read w (reads_done w)));
    [destruct (jobserver_fifo_ s); discriminate |].
  destruct (0 <? io_ret (os_read w (reads_done w))) eqn:Hr; [| discriminate].
  intros E. inversion E. apply Z.ltb_lt in Hr. auto.
Qed.

Lemma run_acquires_open (n : nat) (s s1 : Jobserver) (w w1 : World) :
  0 < token_count_ s ->
  token_count_ s + Z.of_nat n <= INT_MAX ->
  jobserver_closed_ s = false ->
  run (repeat CallAcquire n) s w = Done (repeat true n) s1 w1 ->
  s1 = with_token_count (token_count_ s + Z.of_nat n) s.
Proof.
  revert s w. induction n as [| n IH]; intros s w Hn Hmax Hc Hrun.
  - cbn in Hrun. inversion Hrun; subst.
    rewrite Z.add_0_r, with_token_count_same. reflexivity.
  - cbn [repeat] in Hrun. apply run_Acquire_inv in Hrun.
    destruct Hrun as (b & bs & s' & w' & HA & Hrest & Hbs).
    inversion Hbs; subst b bs.
    apply Acquire_true_open in HA; [| exact Hn | exact Hc].
    destruct HA as (Hs' & _ & _).
    rewrite wrap_int_small in Hs' by (unfold INT_MIN, INT_MAX in *; lia).
    subst s'. apply IH in Hrest.
    + rewrite Hrest. unfold with_token_count. cbn. f_equal. lia.
    + cbn. lia.
    + cbn. lia.
    + exact Hc.
Qed.

Lemma world_after_writes_trace (fd : Z) (n : nat) (w : World) :
  (forall k, (k < n)%nat ->
     io_ret (os_write w (writes_done w + k)%nat) = 1) ->
  trace (world_after_writes fd n w)
  = trace w ++ repeat (EvWrite fd "+"%char 1) n.
Proof.
  revert w. induction n as [| n IH]; intros w Hw.
  - cbn. rewrite app_nil_r. reflexivity.
  - rewrite world_after_writes_S, IH.
    + cbn. rewrite <- app_assoc. cbn.
      specialize (Hw 0%nat). rewrite Nat.add_0_r in Hw.
      rewrite Hw by lia. reflexivity.
    + intros k Hk. cbn [os_write writes_done world_after_write].
      replace (S (writes_done w) + k)%nat with (writes_done w + S k)%nat
        by lia.
      apply Hw. lia.
Qed.

(** With the channel closed the count does not grow: any number of
    [Acquire]s leaves it at 1, and [Clear] is then a single [Release] that
    writes nothing. *)
Lemma Clear_after_acquires_closed (n : nat) (s : Jobserver) (w : World) :
  jobserver_closed_ s = true ->
  exists s1,
    run (repeat CallAcquire (S n)) s w = Done (repeat true (S n)) s1 w /\
    token_count_ s1 = 1 /\
    Clear s1 w = Release_times 1 s1 w /\
    Clear s1 w = Done tt (with_token_count 0 s1) w.
Proof.
  intros Hc.
  assert (Hgen : forall m s0, jobserver_closed_ s0 = true ->
            exists s1,
              run (repeat CallAcquire (S m)) s0 w
                = Done (repeat true (S m)) s1 w /\
              token_count_ s1 = 1 /\ jobserver_closed_ s1 = true).
  { induction m as [| m IH]; intros s0 H0.
    - exists (with_token_count 1 s0). cbn [repeat run]. unfold bind at 1.
      rewrite Acquire_fast by (rewrite H0; apply orb_true_r).
      cbn. auto.
    - destruct (IH (with_token_count 1 s0) H0) as [s1 (Hrun & H1 & Hc1)].
      exists s1. change (repeat CallAcquire (S (S m)))
        with (CallAcquire :: repeat CallAcquire (S m)).
      cbn [run]. unfold bind at 1.
      rewrite Acquire_fast by (rewrite H0; apply orb_true_r).
      unfold bind at 1. rewrite Hrun. cbn. auto. }
  destruct (Hgen n s Hc) as [s1 (Hrun & H1 & Hc1)].
  exists s1. repeat split; auto.
  - rewrite Clear_closed by exact Hc1. cbn [Release_times].
    unfold bind. rewrite Release_last by exact H1. reflexivity.
  - apply Clear_closed. exact Hc1.
Qed.

(** C2: start with no token counted ([token_count_ <= 0]) and the
    channel open.  After [N >= 1] calls of [Acquire] that all returned true
    ([N] within the range of [int]) the count is [N].  If the next [N - 1]
    writes transfer their byte, [Clear] returns, is exactly [N] calls of
    [Release] (fewer leave a non-zero count), writes [N - 1] bytes (the
    implicit token is not written back) and leaves the count at 0.  A second
    [Clear] right after changes nothing, as does any [Clear] on a zero
    count.  With the channel marked closed it is otherwise: any number
    [M >= 1] of [Acquire]s all return true without touching the world and
    leave the count at 1, and [Clear] is then a single [Release] that writes
    nothing. *)
Theorem C2_Clear_releases_all (N : nat) (s s1 : Jobserver) (w w1 : World)
    (HN : (1 <= N)%nat)
    (Hmax : Z.of_nat N <= INT_MAX)
    (Hcount : token_count_ s <= 0)
    (Hopen : jobserver_closed_ s = false)
    (Hacq : run (repeat CallAcquire N) s w = Done (repeat true N) s1 w1)
    (Hwr : forall k, (k < N - 1)%nat ->
             io_ret (os_write w1 (writes_done w1 + k)%nat) = 1) :
  token_count_ s1 = Z.of_nat N /\
  exists w2,
    Clear s1 w1 = Done tt (with_token_count 0 s1) w2 /\
    Clear s1 w1 = Release_times N s1 w1 /\
    (forall k, (k < N)%nat ->
       exists s' w', Release_times k s1 w1 = Done tt s' w' /\
                     token_count_ s' = Z.of_nat (N - k) /\
                     token_count_ s' <> 0) /\
    trace w2 = trace w1 ++ repeat (EvWrite (wfd_ s1) "+"%char 1) (N - 1) /\
    Clear (with_token_count 0 s1) w2 = Done tt (with_token_count 0 s1) w2 /\
    (forall s0 w0, token_count_ s0 = 0 -> Clear s0 w0 = Done tt s0 w0) /\
    (forall (M : nat) (sc : Jobserver) (wc : World),
       (1 <= M)%nat ->
       jobserver_closed_ sc = true ->
       exists sc1,
         run (repeat CallAcquire M) sc wc = Done (repeat true M) sc1 wc /\
         token_count_ sc1 = 1 /\
         Clear sc1 wc = Release_times 1 sc1 wc /\
         Clear sc1 wc = Done tt (with_token_count 0 sc1) wc).
Proof.
  destruct N as [| n]; [lia |]. clear HN.
  cbn [repeat] in Hacq. apply run_Acquire_inv in Hacq.
  destruct Hacq as (b & bs & s' & w' & HA & Hrest & Hbs).
  inversion Hbs; subst b bs.
  rewrite Acquire_fast in HA
    by (apply orb_true_iff; left; apply Z.leb_le; exact Hcount).
  inversion HA; subst s' w'. clear HA Hbs.
  apply run_acquires_open in Hrest;
    [| cbn [token_count_ with_token_count]; lia
     | cbn [token_count_ with_token_count]; lia | exact Hopen].
  cbn [token_count_ with_token_count] in Hrest.
  assert (Hn1 : token_count_ s1 = Z.of_nat (S n)) by (subst s1; cbn [token_count_ with_token_count]; lia).
  assert (Hc1 : jobserver_closed_ s1 = false) by (subst s1; exact Hopen).
  replace (S n - 1)%nat with n in * by lia.
  split; [exact Hn1 |].
  exists (world_after_writes (wfd_ s1) n w1).
  split; [| split; [| split; [| split; [| split; [| split]]]]].
  - unfold Clear. apply Clear_loop_open; auto. rewrite Hn1. lia.
  - rewrite Release_times_open by auto.
    unfold Clear. apply Clear_loop_open; auto. rewrite Hn1. lia.
  - intros k Hk. eexists. eexists. split.
    + apply Release_times_partial; [lia | exact Hc1 |].
      intros j Hj. apply Hwr. lia.
    + cbn [token_count_ with_token_count]. lia.
  - apply world_after_writes_trace. exact Hwr.
  - apply Clear_zero. reflexivity.
  - intros s0 w0. apply Clear_zero.
  - intros M sc wc HM Hcl. destruct M as [| m]; [lia |].
    apply Clear_after_acquires_closed. exact Hcl.
Qed.

(** ** The disabled client *)

Lemma Jobserver_ctor_disabled (MAKEFLAGS : option string) (s : Jobserver)
    (w : World) :
  disabled_address MAKEFLAGS ->
  Jobserver_ctor MAKEFLAGS s w = Done tt s w.
Proof.
  unfold disabled_address, Jobserver_ctor.
  destruct MAKEFLAGS as [raw |]; [| reflexivity].
  intros H. rewrite H. cbn.
  destruct (strlen (c_str raw) =? 0); reflexivity.
Qed.

(** An open anonymous client holding at most the implicit token, in a world
    where every read fails hard: either nothing happens at all, or one
    [Acquire] finds the token taken, tries the read, fails and closes the
    channel, after which nothing more happens. *)
Lemma run_single_token (calls : list call) (s : Jobserver) (w : World) :
  jobserver_fifo_ s = false ->
  jobserver_closed_ s = false ->
  token_count_ s <= 1 ->
  hard_error (os_read w (reads_done w)) = true ->
  exists bs s' w',
    run calls s w = Done bs s' w' /\
    ((w' = w /\ bs = repeat true (acquires calls)) \/
     (w' = log (pipe_closed_warning (rfd_ s)) (world_after_read (rfd_ s) w)
      /\ In false bs /\ jobserver_closed_ s' = true)).
Proof.
  revert s. induction calls as [| c calls IH]; intros s Hf Hc Hn Herr.
  - exists [], s, w. cbn. auto.
  - destruct c; cbn [run acquires repeat]; unfold bind at 1.
    + destruct (Z_le_gt_dec (token_count_ s) 0) as [Hle | Hgt].
      * rewrite Acquire_fast
          by (apply orb_true_iff; left; apply Z.leb_le; exact Hle).
        destruct (IH (with_token_count 1 s) Hf Hc) as
          (bs & s' & w' & Hrun & Hw'); [cbn; lia | exact Herr |].
        exists (true :: bs), s', w'. unfold bind at 1. rewrite Hrun.
        split; [reflexivity |].
        destruct Hw' as [[Hw' Hbs] | [Hw' [Hbs Hcl]]]; [left | right].
        -- subst. auto.
        -- split; [exact Hw' | split; [right; exact Hbs | exact Hcl]].
      * rewrite Acquire_slow
          by (rewrite Hc, orb_false_r; apply Z.leb_gt; lia).
        cbv zeta. rewrite Herr, Hf.
        destruct (run_closed calls (with_closed true s)
                    (log (pipe_closed_warning (rfd_ s))
                         (world_after_read (rfd_ s) w)) eq_refl)
          as [s' (Hrun & Hcl & _)].
        exists (false :: repeat true (acquires calls)), s',
          (log (pipe_closed_warning (rfd_ s)) (world_after_read (rfd_ s) w)).
        fold (pipe_closed_warning (rfd_ s)).
        unfold bind at 1. rewrite Hrun. split; [reflexivity |].
        right. split; [reflexivity |].
        split; [left; reflexivity | exact Hcl].
    + rewrite Release_eq. cbv zeta.
      assert (H0 : (if token_count_ s <? 0 then 0
                    else if 0 <? token_count_ s then token_count_ s - 1
                         else token_count_ s) = 0).
      { destruct (token_count_ s <? 0) eqn:H1; [reflexivity |].
        destruct (0 <? token_count_ s) eqn:H2.
        - apply Z.ltb_lt in H2. lia.
        - apply Z.ltb_ge in H1, H2. lia. }
      rewrite H0. cbn [Z.eqb orb].
      destruct (IH (with_token_count 0 s) Hf Hc) as
        (bs & s' & w' & Hrun & Hw'); [cbn; lia | exact Herr |].
      exists bs, s', w'. auto.
    + assert (HC : Clear s w = Done tt (with_token_count 0 s) w).
      { destruct (Z.lt_trichotomy (token_count_ s) 0) as [Hlt | [Hz | Hgt]].
        - apply Clear_negative. exact Hlt.
        - rewrite Clear_zero by exact Hz.
          rewrite <- Hz, with_token_count_same. reflexivity.
        - unfold Clear.
          rewrite (Clear_loop_open 0); [reflexivity | | exact Hc | | ].
          + cbn. lia.
          + lia.
          + intros k Hk. lia. }
      rewrite HC.
      destruct (IH (with_token_count 0 s) Hf Hc) as
        (bs & s' & w' & Hrun & Hw'); [cbn; lia | exact Herr |].
      exists bs, s', w'. auto.
Qed.

(** C8: a client built from a disabled address (no MAKEFLAGS, or no
    non-empty jobserver value in it) never writes, whatever the sequence of
    [Acquire], [Release] and [Clear] calls.  It reads nothing either as long
    as every [Acquire] returns true; but an [Acquire] made while the implicit
    token is held does try one [read] on the invalid descriptor -1.  When
    that read fails as a read on a bad descriptor does (an error other than
    EAGAIN / EWOULDBLOCK), that [Acquire] returns false with a warning and
    closes the channel: one read at most is ever made. *)
Theorem C8_disabled_client_io (MAKEFLAGS : option string)
    (calls : list call) (w : World)
    (Hdisabled : disabled_address MAKEFLAGS)
    (Hbad : hard_error (os_read w (reads_done w)) = true) :
  exists bs s' w',
    (Jobserver_ctor MAKEFLAGS ;; run calls) Jobserver_init w
      = Done bs s' w' /\
    writes_in (trace w') = writes_in (trace w) /\
    (reads_in (trace w') <= reads_in (trace w) + 1)%nat /\
    ((trace w' = trace w /\ bs = repeat true (acquires calls)) \/
     (trace w' = trace w ++ [EvRead (-1) (io_ret (os_read w (reads_done w)));
                             pipe_closed_warning (-1)]
      /\ In false bs /\ jobserver_closed_ s' = true)).
Proof.
  unfold bind at 1. rewrite Jobserver_ctor_disabled by exact Hdisabled.
  destruct (run_single_token calls Jobserver_init w) as
    (bs & s' & w' & Hrun & Hw'); try reflexivity; [cbn; lia | exact Hbad |].
  exists bs, s', w'. split; [exact Hrun |].
  destruct Hw' as [[Hw' Hbs] | [Hw' [Hbs Hcl]]]; subst w'.
  - split; [reflexivity |]. split; [lia |]. left. auto.
  - cbn [trace log world_after_read rfd_ Jobserver_init].
    unfold writes_in, reads_in. rewrite <- !app_assoc, !filter_app.
    cbn. rewrite !app_nil_r, ?length_app. cbn.
    split; [reflexivity |]. split; [lia |]. right. auto.
Qed.

(** ** Strings *)

Lemma string_app_assoc (a b c : string) :
  ((a ++ b) ++ c)%string = (a ++ b ++ c)%string.
Proof.
  induction a as [| x a IH]; cbn; [reflexivity | rewrite IH; reflexivity].
Qed.

Lemma string_app_empty_r (a : string) : (a ++ "")%string = a.
Proof.
  induction a as [| x a IH]; cbn; [reflexivity | rewrite IH; reflexivity].
Qed.

Lemma starts_with_app (key v : string) :
  starts_with key (key ++ v) = true.
Proof.
  unfold starts_with. induction key as [| c key IH]; cbn.
  - destruct v; reflexivity.
  - destruct (ascii_dec c c) as [_ | Hne]; [exact IH | congruence].
Qed.

Lemma substr_app (key v : string) :
  substr (String.length key) (key ++ v) = v.
Proof.
  induction key as [| c key IH]; cbn; [reflexivity | exact IH].
Qed.

Lemma empty_true (s : string) : empty s = true <-> s = EmptyString.
Proof. destruct s; cbn; split; congruence. Qed.

Lemma empty_false (s : string) : empty s = false <-> s <> EmptyString.
Proof. destruct s; cbn; split; congruence. Qed.

Lemma c_str_idempotent (s : string) : c_str (c_str s) = c_str s.
Proof.
  induction s as [| c s IH]; cbn; [reflexivity |].
  destruct (char_code c =? 0) eqn:Hc; cbn; [reflexivity |].
  rewrite Hc, IH. reflexivity.
Qed.

(** ** The flag scan *)

Lemma scan_key_app (key : string) (l1 l2 : list string) (init : string) :
  scan_key key (l1 ++ l2) init = scan_key key l2 (scan_key key l1 init).
Proof.
  revert init. induction l1 as [| x l1 IH]; intros init; cbn;
    [reflexivity | apply IH].
Qed.

Lemma scan_key_no_match (key : string) (l : list string) (init : string) :
  (forall word, In word l -> starts_with key word = false) ->
  scan_key key l init = init.
Proof.
  revert init. induction l as [| x l IH]; intros init H; cbn;
    [reflexivity |].
  rewrite (H x) by (left; reflexivity).
  apply IH. intros word Hin. apply H. right. exact Hin.
Qed.

(** The value of the last word that begins with [key] is what the loop
    leaves in [flag_]. *)
Lemma scan_key_last (key : string) (before after : list string)
    (v init : string) :
  (forall word, In word after -> starts_with key word = false) ->
  scan_key key (before ++ (key ++ v)%string :: after) init = v.
Proof.
  intros H. rewrite scan_key_app. cbn [scan_key].
  rewrite starts_with_app, substr_app.
  apply scan_key_no_match. exact H.
Qed.

(** C6: take the last word of the flag string that begins with
    [--jobserver-auth=], and let [v] be what follows the key in it.  If [v]
    is not empty, [v] is the value used, wherever [--jobserver-fds=] words
    stand.  If [v] is empty, the value used is the one the scan for
    [--jobserver-fds=] leaves: that of its last occurrence.  For either key,
    the scan keeps the value of the last word beginning with the key. *)
Theorem C6_last_auth_occurrence (makeflags : string)
    (before after : list string) (v : string)
    (Hwords : tokenize makeflags
              = before ++ (AUTH_KEY ++ v)%string :: after)
    (Hlast : forall word, In word after -> starts_with AUTH_KEY word = false) :
  (v <> EmptyString -> flag_value makeflags = v) /\
  (v = EmptyString ->
     flag_value makeflags
     = scan_key FDS_KEY (tokenize makeflags) EmptyString) /\
  (forall (fds_before fds_after : list string) (u : string),
     v = EmptyString ->
     tokenize makeflags
       = fds_before ++ (FDS_KEY ++ u)%string :: fds_after ->
     (forall word, In word fds_after -> starts_with FDS_KEY word = false) ->
     flag_value makeflags = u) /\
  (forall (key : string) (l1 l2 : list string) (u init : string),
     (forall word, In word l2 -> starts_with key word = false) ->
     scan_key key (l1 ++ (key ++ u)%string :: l2) init = u).
Proof.
  assert (Hscan : scan_key AUTH_KEY (tokenize makeflags) EmptyString = v).
  { rewrite Hwords. apply scan_key_last. exact Hlast. }
  unfold flag_value. cbv zeta. rewrite Hscan. clear Hscan.
  split; [| split; [| split]].
  - intros Hv. apply empty_false in Hv. rewrite Hv. reflexivity.
  - intros Hv. subst v. reflexivity.
  - intros fb fa u Hv Hfds Hfa. subst v. cbn [empty].
    rewrite Hfds. apply scan_key_last. exact Hfa.
  - intros key l1 l2 u init H. apply scan_key_last. exact H.
Qed.

(** ** Construction from a flag value *)

Lemma flag_value_nonempty_strlen (raw : string) :
  empty (flag_value (c_str raw)) = false ->
  (strlen (c_str raw) =? 0) = false.
Proof.
  intros H. unfold strlen. rewrite c_str_idempotent.
  destruct (c_str raw) as [| c rest]; [discriminate H |].
  reflexivity.
Qed.

Lemma Jobserver_ctor_attach (raw : string) (s : Jobserver) (w : World) :
  empty (flag_value (c_str raw)) = false ->
  Jobserver_ctor (Some raw) s w
  = Jobserver_attach (flag_value (c_str raw)) s w.
Proof.
  intros H. unfold Jobserver_ctor. cbv zeta.
  rewrite (flag_value_nonempty_strlen raw H), H. reflexivity.
Qed.

(** A scan that does not convert both integers leaves the second one
    alone. *)
Lemma sscanf_second_untouched (v : string) (a b k r wf : Z) :
  sscanf_d_comma_d v a b = (k, r, wf) ->
  k <> 2 -> wf = b.
Proof.
  unfold sscanf_d_comma_d.
  repeat (match goal with
          | |- context [match ?x with _ => _ end] => destruct x
          end);
    intros E; inversion E; subst; congruence.
Qed.

(** The scan touches nothing of the world but [errno]. *)
Lemma after_sscanf_fields (v : string) (w : World) :
  trace (after_sscanf v w) = trace w /\
  os_open (after_sscanf v w) = os_open w /\
  os_read (after_sscanf v w) = os_read w /\
  os_write (after_sscanf v w) = os_write w /\
  opens_done (after_sscanf v w) = opens_done w /\
  reads_done (after_sscanf v w) = reads_done w /\
  writes_done (after_sscanf v w) = writes_done w.
Proof.
  unfold after_sscanf. destruct (sscanf_erange v); cbn; auto 10.
Qed.

Lemma after_sscanf_trace (v : string) (w : World) :
  trace (after_sscanf v w) = trace w.
Proof. apply after_sscanf_fields. Qed.

Lemma Jobserver_attach_pipe (v : string) (w : World) :
  starts_with FIFO_KEY v = false ->
  Jobserver_attach v Jobserver_init w =
    match sscanf_d_comma_d v (-1) (-1) with
    | (k, r, wf) =>
        if k =? 2 then adopt_pair v r wf (after_sscanf v w)
        else reject_value v r (after_sscanf v w)
    end.
Proof.
  intros Hf. unfold Jobserver_attach, sscanf_rfd_wfd. unfold_m.
  cbn. rewrite Hf. cbn.
  destruct (sscanf_d_comma_d v (-1) (-1)) as [[k r] wf] eqn:Hs. cbn.
  destruct (k =? 2) eqn:Hk; cbn.
  - unfold adopt_pair.
    destruct ((0 <=? r) && (0 <=? wf)); cbn; [reflexivity |].
    destruct ((r =? -1) || (wf =? -1)); reflexivity.
  - apply Z.eqb_neq in Hk.
    rewrite (sscanf_second_untouched _ _ _ _ _ _ Hs Hk). reflexivity.
Qed.

(** C4: construction from a pair of descriptors [r], [wf] scanned
    from the flag value.  With both non-negative the client attaches.
    Otherwise, if [r] or [wf] is exactly -1 the process is ended by [Fatal],
    also when the other descriptor is valid; and if neither is -1 (one or
    both are other negative numbers) the client marks the channel closed and
    goes on initialized, with [token_count_ = -1] and no diagnostic.  The
    scan of the value changes nothing in the world but, on a number beyond
    the range of [long], [errno]. *)
Theorem C4_construction_from_pair (raw : string) (w : World) (r wf : Z)
    (Hval : empty (flag_value (c_str raw)) = false)
    (Hpipe : starts_with FIFO_KEY (flag_value (c_str raw)) = false)
    (Hscan : sscanf_d_comma_d (flag_value (c_str raw)) (-1) (-1)
             = (2, r, wf)) :
  (0 <= r /\ 0 <= wf ->
   Jobserver_ctor (Some raw) Jobserver_init w
   = Done tt (mkJobserver (-1) (flag_value (c_str raw)) false false r wf)
          (log (EvInfo "using jobserver: %s"
                       [ArgStr (flag_value (c_str raw))])
               (after_sscanf (flag_value (c_str raw)) w))) /\
  (~ (0 <= r /\ 0 <= wf) -> r = -1 \/ wf = -1 ->
   exists w',
     Jobserver_ctor (Some raw) Jobserver_init w = Exited w' /\
     exists args,
       trace w' = trace w ++ [EvFatal "failed to open jobserver: %s: %s" args])
  /\
  (~ (0 <= r /\ 0 <= wf) -> r <> -1 -> wf <> -1 ->
   Jobserver_ctor (Some raw) Jobserver_init w
   = Done tt (mkJobserver (-1) (flag_value (c_str raw)) true false r wf)
          (after_sscanf (flag_value (c_str raw)) w)) /\
  trace (after_sscanf (flag_value (c_str raw)) w) = trace w.
Proof.
  rewrite Jobserver_ctor_attach by exact Hval.
  rewrite Jobserver_attach_pipe by exact Hpipe.
  rewrite Hscan. cbn [Z.eqb Pos.eqb]. unfold adopt_pair.
  split; [| split; [| split; [| apply after_sscanf_trace]]].
  - intros [Hr Hw].
    apply Z.leb_le in Hr, Hw. rewrite Hr, Hw. reflexivity.
  - intros Hnot Hone.
    assert (Hb : (0 <=? r) && (0 <=? wf) = false).
    { apply andb_false_iff. destruct (Z.leb_spec 0 r); [| auto].
      destruct (Z.leb_spec 0 wf); [| auto]. exfalso. apply Hnot. lia. }
    rewrite Hb.
    assert (Ho : (r =? -1) || (wf =? -1) = true).
    { apply orb_true_iff. destruct Hone; [left | right]; apply Z.eqb_eq;
        assumption. }
    rewrite Ho. eexists. split; [reflexivity |]. eexists.
    cbn [log trace]. rewrite after_sscanf_trace. reflexivity.
  - intros Hnot Hr Hw.
    assert (Hb : (0 <=? r) && (0 <=? wf) = false).
    { apply andb_false_iff. destruct (Z.leb_spec 0 r); [| auto].
      destruct (Z.leb_spec 0 wf); [| auto]. exfalso. apply Hnot. lia. }
    rewrite Hb.
    apply Z.eqb_neq in Hr, Hw. rewrite Hr, Hw. reflexivity.
Qed.

(** The destructor of a client that holds no token. *)
Lemma Jobserver_dtor_idle (s : Jobserver) (w : World) :
  token_count_ s = 0 ->
  Jobserver_dtor s w =
    Done tt (mkJobserver 0 (jobserver_name_ s) (jobserver_closed_ s)
                         (jobserver_fifo_ s) (-1) (-1))
         (let w1 := if 0 <=? rfd_ s then log (EvClose (rfd_ s)) w else w in
          if 0 <=? wfd_ s then log (EvClose (wfd_ s)) w1 else w1).
Proof.
  intros H0. unfold Jobserver_dtor. unfold bind at 1.
  rewrite Clear_zero by exact H0. unfold_m.
  destruct s as [n name closed fifo rfd wfd]. cbn in *. subst n.
  destruct (0 <=? rfd); cbn; destruct (0 <=? wfd); reflexivity.
Qed.


(** ** What "%d,%d" accepts *)

Lemma char_code_eq (c : ascii) (n : nat) :
  char_code c = Z.of_nat n -> c = ascii_of_nat n.
Proof.
  unfold char_code. intros H. apply Nat2Z.inj in H.
  rewrite <- H. symmetry. apply ascii_nat_embedding.
Qed.

Lemma isdigit_not_space (c : ascii) : isdigit c = true -> isspace c = false.
Proof.
  unfold isdigit, isspace. intros H.
  apply andb_true_iff in H. destruct H as [H1 H2].
  apply Z.leb_le in H1, H2.
  apply orb_false_iff. split.
  - apply Z.eqb_neq. lia.
  - apply andb_false_iff. right. apply Z.leb_gt. lia.
Qed.

Lemma isdigit_not_sign (c : ascii) :
  isdigit c = true ->
  (char_code c =? 45) = false /\ (char_code c =? 43) = false.
Proof.
  unfold isdigit. intros H.
  apply andb_true_iff in H. destruct H as [H1 H2].
  apply Z.leb_le in H1, H2.
  split; apply Z.eqb_neq; lia.
Qed.

Lemma skip_space_split (s : string) :
  exists ws, s = (ws ++ skip_space s)%string /\ all_chars isspace ws = true.
Proof.
  induction s as [| c s IH].
  - exists EmptyString. auto.
  - cbn. destruct (isspace c) eqn:Hc.
    + destruct IH as [ws [Hs Hws]].
      exists (String c ws). cbn. rewrite Hc, Hws, <- Hs. auto.
    + exists EmptyString. auto.
Qed.

Lemma skip_space_app (ws x : string) :
  all_chars isspace ws = true ->
  skip_space (ws ++ x) = skip_space x.
Proof.
  induction ws as [| c ws IH]; cbn; [reflexivity |].
  intros H. apply andb_true_iff in H. destruct H as [Hc Hws].
  rewrite Hc. apply IH. exact Hws.
Qed.

Lemma scan_digits_split (s : string) (acc : Z) :
  exists ds,
    s = (ds ++ snd (scan_digits s acc))%string /\
    all_chars isdigit ds = true /\
    fst (scan_digits s acc) = decimal_value ds acc /\
    starts_with_digit (snd (scan_digits s acc)) = false.
Proof.
  revert acc. induction s as [| c s IH]; intros acc.
  - exists EmptyString. cbn. auto.
  - cbn. destruct (isdigit c) eqn:Hc.
    + destruct (IH (10 * acc + digit_value c)) as [ds (Hs & Hd & Hv & Hr)].
      exists (String c ds). cbn [append all_chars decimal_value].
      rewrite Hc, Hd. repeat split; auto. f_equal. exact Hs.
    + exists EmptyString. cbn. auto.
Qed.

Lemma scan_digits_app (ds rest : string) (acc : Z) :
  all_chars isdigit ds = true ->
  starts_with_digit rest = false ->
  scan_digits (ds ++ rest) acc = (decimal_value ds acc, rest).
Proof.
  revert acc. induction ds as [| c ds IH]; intros acc Hd Hr;
    cbn [append decimal_value].
  - destruct rest as [| c rest]; [reflexivity |].
    cbn [starts_with_digit] in Hr. cbn [scan_digits].
    rewrite Hr. reflexivity.
  - cbn [all_chars] in Hd. apply andb_true_iff in Hd.
    destruct Hd as [Hc Hd].
    cbn [scan_digits]. rewrite Hc. apply IH; assumption.
Qed.

(** Every text of that shape is converted by [%d], whatever follows it, as
    long as no further digit does. *)
Lemma scan_int_complete (t rest : string) (v : Z) :
  integer_text t v ->
  starts_with_digit rest = false ->
  scan_int (t ++ rest) = ConvOK v rest.
Proof.
  intros (ws & sg & ds & neg & Ht & Hws & Hsg & Hne & Hds & Hv) Hrest.
  subst t v. rewrite !string_app_assoc.
  unfold scan_int. rewrite skip_space_app by exact Hws.
  destruct ds as [| d ds]; [congruence |].
  pose proof Hds as Hds'. cbn [all_chars] in Hds'.
  apply andb_true_iff in Hds'. destruct Hds' as [Hd _].
  assert (Hdigits : scan_digits (String d (ds ++ rest)) 0
                    = (decimal_value (String d ds) 0, rest)).
  { change (String d (ds ++ rest)) with ((String d ds) ++ rest)%string.
    apply scan_digits_app; assumption. }
  destruct Hsg; cbn [append skip_space].
  - rewrite (isdigit_not_space d Hd). cbn [scan_sign].
    destruct (isdigit_not_sign d Hd) as [H45 H43]. rewrite H45, H43.
    cbn [starts_with_digit]. rewrite Hd, Hdigits. reflexivity.
  - change (isspace "+") with false. cbv iota. cbn [scan_sign].
    change (char_code "+" =? 45) with false.
    change (char_code "+" =? 43) with true. cbv iota.
    cbn [starts_with_digit]. rewrite Hd, Hdigits. reflexivity.
  - change (isspace "-") with false. cbv iota. cbn [scan_sign].
    change (char_code "-" =? 45) with true. cbv iota.
    cbn [starts_with_digit]. rewrite Hd, Hdigits. reflexivity.
Qed.

(** And [%d] converts nothing else. *)
Lemma scan_int_sound (s rest : string) (v : Z) :
  scan_int s = ConvOK v rest ->
  exists t,
    s = (t ++ rest)%string /\ integer_text t v /\
    starts_with_digit rest = false.
Proof.
  unfold scan_int.
  destruct (skip_space_split s) as [ws [Hs Hws]].
  destruct (skip_space s) as [| c s1] eqn:Hskip; [discriminate |].
  assert (Hgen : forall (sg : string) (neg : bool) (s2 : string),
            sign_text sg neg ->
            String c s1 = (sg ++ s2)%string ->
            (if starts_with_digit s2
             then let (v0, rest0) := scan_digits s2 0 in
                  ConvOK (to_int (if neg then - v0 else v0)) rest0
             else ConvFail) = ConvOK v rest ->
            exists t, s = (t ++ rest)%string /\ integer_text t v /\
                      starts_with_digit rest = false).
  { intros sg neg s2 Hsg Hs2.
    destruct (starts_with_digit s2) eqn:Hd; [| discriminate].
    destruct (scan_digits_split s2 0) as [ds (Hsplit & Hds & Hval & Hr)].
    destruct (scan_digits s2 0) as [v0 rest0]. cbn [fst snd] in *.
    intros E. inversion E; subst v rest. clear E.
    exists (ws ++ sg ++ ds)%string. split; [| split].
    - rewrite Hs, Hs2, Hsplit, !string_app_assoc. reflexivity.
    - exists ws, sg, ds, neg. repeat split; auto.
      + intros Hemp. subst ds. cbn in Hsplit. subst s2. congruence.
      + rewrite Hval. reflexivity.
    - exact Hr. }
  unfold scan_sign.
  destruct (char_code c =? 45) eqn:H45.
  - apply Z.eqb_eq in H45. apply (char_code_eq c 45) in H45. subst c.
    apply (Hgen "-"%string true s1 sign_minus). reflexivity.
  - destruct (char_code c =? 43) eqn:H43.
    + apply Z.eqb_eq in H43. apply (char_code_eq c 43) in H43. subst c.
      apply (Hgen "+"%string false s1 sign_plus). reflexivity.
    + apply (Hgen EmptyString false (String c s1) sign_none). reflexivity.
Qed.

(** The scan converts both integers exactly on the strings that begin with
    a pair. *)
Lemma sscanf_two_iff (s : string) (a b r wf : Z) :
  sscanf_d_comma_d s a b = (2, r, wf) <-> pair_prefix s r wf.
Proof.
  split.
  - unfold sscanf_d_comma_d.
    destruct (scan_int s) as [| | a' rest] eqn:H1; try discriminate.
    destruct rest as [| c rest']; [discriminate |].
    destruct (char_code c =? 44) eqn:Hc; [| discriminate].
    destruct (scan_int rest') as [| | b' rest''] eqn:H2; try discriminate.
    intros E. inversion E; subst a' b'. clear E.
    apply Z.eqb_eq in Hc. apply (char_code_eq c 44) in Hc. subst c.
    apply scan_int_sound in H1. destruct H1 as [t1 (Hs1 & Ht1 & _)].
    apply scan_int_sound in H2. destruct H2 as [t2 (Hs2 & Ht2 & Hr)].
    exists t1, t2, rest''. subst rest'. auto.
  - intros (t1 & t2 & rest & Hs & Ht1 & Ht2 & Hr). subst s.
    unfold sscanf_d_comma_d.
    rewrite (scan_int_complete t1 _ r Ht1) by reflexivity.
    cbn [append]. cbn [char_code nat_of_ascii]. 
    change (char_code "," =? 44) with true. cbv iota.
    rewrite (scan_int_complete t2 rest wf Ht2 Hr). reflexivity.
Qed.

(** A value that begins with one integer, but not with a pair, is scanned
    with result 1: the first integer is stored, the second left alone. *)
Lemma sscanf_one_integer (t rest : string) (n a b : Z) :
  integer_text t n ->
  starts_with_digit rest = false ->
  (forall r wf, ~ pair_prefix (t ++ rest) r wf) ->
  sscanf_d_comma_d (t ++ rest) a b = (1, n, b).
Proof.
  intros Ht Hrest Hno.
  destruct (sscanf_d_comma_d (t ++ rest) a b) as [[k r] wf] eqn:E.
  assert (Hk : k <> 2).
  { intros ->. apply sscanf_two_iff in E. exact (Hno r wf E). }
  revert E. unfold sscanf_d_comma_d.
  rewrite (scan_int_complete t rest n Ht Hrest).
  destruct rest as [| c rest'].
  - intros E; inversion E; reflexivity.
  - destruct (char_code c =? 44).
    + destruct (scan_int rest'); intros E; inversion E; subst;
        congruence.
    + intros E; inversion E; reflexivity.
Qed.

(** C5: for a non-empty flag value [v] that does not begin with
    [fifo:], the constructor takes a pair of descriptors [(r, wf)] from [v]
    exactly when [v] begins with an integer, a comma and a second integer,
    each integer being optional white space, an optional sign and digits;
    whatever follows the second integer is ignored.  In particular the
    values that are exactly two integers and a comma are taken.  Every other
    value draws the warning that names [v] and leaves the client disabled:
    [token_count_ = 0], [Enabled()] false.  Either way the world the
    constructor goes on with is the one the scan left: the trace as it was,
    and [errno] set to ERANGE when a scanned number is beyond the range of
    [long], untouched otherwise. *)
Theorem C5_pair_value (raw : string) (w : World)
    (Hval : empty (flag_value (c_str raw)) = false)
    (Hpipe : starts_with FIFO_KEY (flag_value (c_str raw)) = false) :
  let v := flag_value (c_str raw) in
  (forall r wf, pair_prefix v r wf ->
     Jobserver_ctor (Some raw) Jobserver_init w
     = adopt_pair v r wf (after_sscanf v w)) /\
  (forall r wf, spec_exactly_two_integers v = Some (r, wf) ->
     pair_prefix v r wf) /\
  ((forall r wf, ~ pair_prefix v r wf) ->
     exists r s1,
       Jobserver_ctor (Some raw) Jobserver_init w
       = reject_value v r (after_sscanf v w) /\
       reject_value v r (after_sscanf v w)
       = Done tt s1
           (log (EvWarning "invalid jobserver value: '%s'" [ArgStr v])
                (after_sscanf v w)) /\
       token_count_ s1 = 0 /\ Enabled s1 = false) /\
  trace (after_sscanf v w) = trace w /\
  (sscanf_erange v = true -> errno (after_sscanf v w) = ERANGE) /\
  (sscanf_erange v = false -> after_sscanf v w = w).
Proof.
  cbv zeta.
  rewrite Jobserver_ctor_attach by exact Hval.
  rewrite Jobserver_attach_pipe by exact Hpipe.
  split; [| split; [| split; [| split; [apply after_sscanf_trace |]]]];
    [| | | unfold after_sscanf; split; intros ->; reflexivity].
  - intros r wf Hp. apply (sscanf_two_iff _ (-1) (-1)) in Hp.
    rewrite Hp. reflexivity.
  - intros r wf. unfold spec_exactly_two_integers.
    destruct (scan_int (flag_value (c_str raw))) as [| | a' rest] eqn:H1;
      try discriminate.
    destruct rest as [| c rest']; [discriminate |].
    destruct (char_code c =? 44) eqn:Hc; [| discriminate].
    destruct (scan_int rest') as [| | b' rest''] eqn:H2; try discriminate.
    destruct rest''; [| discriminate].
    intros E. inversion E; subst a' b'. clear E.
    apply (sscanf_two_iff _ (-1) (-1)). unfold sscanf_d_comma_d.
    rewrite H1, Hc, H2. reflexivity.
  - intros Hno.
    destruct (sscanf_d_comma_d (flag_value (c_str raw)) (-1) (-1))
      as [[k r] wf] eqn:Hs.
    destruct (k =? 2) eqn:Hk.
    + apply Z.eqb_eq in Hk. subst k.
      apply sscanf_two_iff in Hs. exfalso. exact (Hno r wf Hs).
    + eexists. eexists. split; [reflexivity |].
      split; [reflexivity |]. split; [reflexivity |].
      unfold Enabled. cbn. apply andb_false_r.
Qed.

(** ** Token accounting *)

Lemma writes_in_snoc (t : list event) (e : event) :
  writes_in (t ++ [e]) = (writes_in t + (if is_write e then 1 else 0))%nat.
Proof.
  unfold writes_in. rewrite filter_app, length_app. cbn.
  destruct (is_write e); reflexivity.
Qed.

Lemma tokens_in_snoc (t : list event) (e : event) :
  tokens_in (t ++ [e])
  = (tokens_in t + (if is_token_read e then 1 else 0))%nat.
Proof.
  unfold tokens_in. rewrite filter_app, length_app. cbn.
  destruct (is_token_read e); reflexivity.
Qed.

Lemma balanced_le (s : Jobserver) (w : World) :
  balanced s w -> (writes_in (trace w) <= tokens_in (trace w))%nat.
Proof.
  unfold balanced. destruct (jobserver_closed_ s); lia.
Qed.

Lemma Acquire_balanced (s : Jobserver) (w : World) :
  balanced s w ->
  Z.max (token_count_ s) 0 + 1 <= INT_MAX ->
  balanced_outcome (Z.max (token_count_ s) 0 + 1) (Acquire s w).
Proof.
  intros Hb Hmax.
  destruct ((token_count_ s <=? 0) || jobserver_closed_ s) eqn:Hfast.
  - rewrite Acquire_fast by exact Hfast. cbn [balanced_outcome].
    unfold balanced in *. cbn [with_token_count token_count_
      jobserver_closed_]. split; [| lia].
    destruct (jobserver_closed_ s); [exact Hb |].
    rewrite orb_false_r in Hfast. apply Z.leb_le in Hfast. lia.
  - rewrite Acquire_slow by exact Hfast. cbv zeta.
    apply orb_false_iff in Hfast. destruct Hfast as [Hn Hc].
    apply Z.leb_gt in Hn.
    pose proof (balanced_le s w Hb) as Hle.
    unfold balanced in Hb. rewrite Hc in Hb.
    destruct (hard_error (os_read w (reads_done w))) eqn:Herr.
    + assert (Hneg : (0 <? io_ret (os_read w (reads_done w))) = false).
      { unfold hard_error in Herr.
        apply andb_true_iff in Herr. destruct Herr as [Herr _].
        apply andb_true_iff in Herr. destruct Herr as [Herr _].
        apply Z.ltb_lt in Herr. apply Z.ltb_ge. lia. }
      destruct (jobserver_fifo_ s); cbn [balanced_outcome];
        unfold balanced; cbn [log world_after_read trace with_closed
          jobserver_closed_ token_count_];
        rewrite !writes_in_snoc, !tokens_in_snoc;
        cbn [is_write is_token_read]; rewrite Hneg; lia.
    + destruct (0 <? io_ret (os_read w (reads_done w))) eqn:Hr;
        cbn [balanced_outcome]; unfold balanced;
        cbn [world_after_read trace with_token_count jobserver_closed_
          token_count_];
        rewrite Hc, writes_in_snoc, tokens_in_snoc;
        cbn [is_write is_token_read]; rewrite Hr.
      * rewrite wrap_int_small by (unfold INT_MIN, INT_MAX in *; lia).
        lia.
      * lia.
Qed.

Lemma Release_balanced (s : Jobserver) (w : World) :
  balanced s w ->
  balanced_outcome (Z.max (token_count_ s) 0) (Release s w).
Proof.
  intros Hb. rewrite Release_eq. cbv zeta.
  set (n := if token_count_ s <? 0 then 0
            else if 0 <? token_count_ s then token_count_ s - 1
                 else token_count_ s).
  assert (Hn : (token_count_ s <= 0 /\ n = 0) \/
               (0 < token_count_ s /\ n = token_count_ s - 1)).
  { subst n. destruct (token_count_ s <? 0) eqn:H1.
    - apply Z.ltb_lt in H1. left. lia.
    - apply Z.ltb_ge in H1. destruct (0 <? token_count_ s) eqn:H2.
      + apply Z.ltb_lt in H2. right. lia.
      + apply Z.ltb_ge in H2. left. lia. }
  clearbody n. unfold balanced in Hb.
  destruct (jobserver_closed_ s) eqn:Hc.
  - rewrite orb_true_r. cbn [balanced_outcome]. unfold balanced.
    cbn [with_token_count jobserver_closed_ token_count_]. rewrite Hc.
    split; [exact Hb | lia].
  - rewrite orb_false_r. destruct (n =? 0) eqn:Hz.
    + apply Z.eqb_eq in Hz. cbn [balanced_outcome]. unfold balanced.
      cbn [with_token_count jobserver_closed_ token_count_]. rewrite Hc.
      lia.
    + apply Z.eqb_neq in Hz.
      destruct (io_ret (os_write w (writes_done w)) =? 1);
        cbn [balanced_outcome]; unfold balanced;
        cbn [log world_after_write trace with_token_count
          jobserver_closed_ token_count_];
        rewrite ?Hc, ?writes_in_snoc, ?tokens_in_snoc;
        cbn [is_write is_token_read]; lia.
Qed.

Lemma balanced_outcome_mono {A} (b1 b2 : Z) (o : outcome A) :
  b1 <= b2 -> balanced_outcome b1 o -> balanced_outcome b2 o.
Proof.
  intros Hle. destruct o; cbn; [| auto | auto].
  intros [Hb Hm]. split; [exact Hb | lia].
Qed.

(** The count [Release] leaves when it returns. *)
Lemma Release_count (s s' : Jobserver) (w w' : World) :
  Release s w = Done tt s' w' ->
  token_count_ s' = (if token_count_ s <? 0 then 0
                     else if 0 <? token_count_ s then token_count_ s - 1
                          else token_count_ s) /\
  jobserver_closed_ s' = jobserver_closed_ s /\
  jobserver_name_ s' = jobserver_name_ s /\
  jobserver_fifo_ s' = jobserver_fifo_ s /\
  rfd_ s' = rfd_ s /\ wfd_ s' = wfd_ s.
Proof.
  rewrite Release_eq. cbv zeta.
  match goal with |- context [with_token_count ?n s] => set (m := n) end.
  destruct ((m =? 0) || jobserver_closed_ s).
  - intros E. inversion E; subst. cbn. auto 10.
  - destruct (io_ret (os_write w (writes_done w)) =? 1); [| discriminate].
    intros E. inversion E; subst. cbn. auto 10.
Qed.

Lemma Clear_loop_balanced (fuel : nat) (s : Jobserver) (w : World) :
  Z.abs (token_count_ s) <= Z.of_nat fuel ->
  balanced s w ->
  balanced_outcome (Z.max (token_count_ s) 0) (Clear_loop fuel s w).
Proof.
  revert s w. induction fuel as [| fuel IH]; intros s w Hf Hb.
  - rewrite Clear_loop_zero by lia. cbn. split; [exact Hb | lia].
  - cbn [Clear_loop]. destruct (token_count_ s =? 0) eqn:Hz.
    + cbn. split; [exact Hb | lia].
    + apply Z.eqb_neq in Hz. unfold bind.
      pose proof (Release_balanced s w Hb) as HR.
      destruct (Release s w) as [[] s1 w1 | w1 |] eqn:ER;
        cbn [balanced_outcome] in HR; [| exact HR | contradiction].
      destruct HR as [Hb1 Hm1].
      apply Release_count in ER. destruct ER as (Hc1 & _).
      apply (balanced_outcome_mono (Z.max (token_count_ s1) 0));
        [exact Hm1 |].
      apply IH; [| exact Hb1].
      rewrite Hc1. destruct (token_count_ s <? 0) eqn:H1; [lia |].
      apply Z.ltb_ge in H1. destruct (0 <? token_count_ s) eqn:H2.
      * apply Z.ltb_lt in H2. lia.
      * apply Z.ltb_ge in H2. lia.
Qed.

Lemma Clear_balanced (s : Jobserver) (w : World) :
  balanced s w ->
  balanced_outcome (Z.max (token_count_ s) 0) (Clear s w).
Proof.
  intros Hb. unfold Clear. apply Clear_loop_balanced; [lia | exact Hb].
Qed.

Lemma run_balanced (calls : list call) (s : Jobserver) (w : World) :
  balanced s w ->
  Z.max (token_count_ s) 0 + Z.of_nat (acquires calls) <= INT_MAX ->
  balanced_outcome INT_MAX (run calls s w).
Proof.
  revert s w. induction calls as [| c calls IH]; intros s w Hb Hmax.
  - cbn in *. split; [exact Hb | lia].
  - destruct c; cbn [run acquires] in *; unfold bind at 1.
    + pose proof (Acquire_balanced s w Hb) as HA.
      destruct (Acquire s w) as [b s1 w1 | w1 |];
        cbn [balanced_outcome] in HA.
      * destruct HA as [Hb1 Hm1]; [lia |].
        specialize (IH s1 w1 Hb1). unfold bind at 1.
        destruct (run calls s1 w1) as [bs s2 w2 | w2 |];
          cbn [balanced_outcome ret] in *; apply IH; lia.
      * apply HA. lia.
      * apply HA. lia.
    + pose proof (Release_balanced s w Hb) as HR.
      destruct (Release s w) as [[] s1 w1 | w1 |];
        cbn [balanced_outcome] in HR; [| exact HR | contradiction].
      destruct HR as [Hb1 Hm1]. apply IH; [exact Hb1 | lia].
    + pose proof (Clear_balanced s w Hb) as HC.
      destruct (Clear s w) as [[] s1 w1 | w1 |];
        cbn [balanced_outcome] in HC; [| exact HC | contradiction].
      destruct HC as [Hb1 Hm1]. apply IH; [exact Hb1 | lia].
Qed.

(** X1: the client never gives back more than it took.  Start from books
    that balance (as they do after construction); run any sequence of
    [Acquire], [Release] and [Clear] calls in which the count cannot leave
    the range of [int], each system call of which returns (a read that
    blocks for ever is outside the model).  The loop of [Clear] then never
    needs more iterations than [|token_count_|], so the run returns or
    [Fatal] ends the process.  If it returns with the channel open, the
    tokens read equal the bytes written plus the tokens held beyond the
    implicit one; with the channel closed, or when the process was ended,
    the bytes written do not exceed the tokens read. *)
Theorem X1_token_conservation (calls : list call) (s : Jobserver) (w : World)
    (Hbooks : balanced s w)
    (Hrange : Z.max (token_count_ s) 0 + Z.of_nat (acquires calls)
              <= INT_MAX) :
  match run calls s w with
  | Done _ s' w' =>
      (writes_in (trace w') <= tokens_in (trace w'))%nat /\
      (jobserver_closed_ s' = false ->
       Z.of_nat (tokens_in (trace w'))
       = Z.of_nat (writes_in (trace w')) + Z.max (token_count_ s') 1 - 1)
  | Exited w' => (writes_in (trace w') <= tokens_in (trace w'))%nat
  | OutOfFuel => False
  end.
Proof.
  pose proof (run_balanced calls s w Hbooks Hrange) as H.
  destruct (run calls s w) as [bs s' w' | w' |]; cbn in H; [| exact H | exact H].
  destruct H as [Hb _]. split.
  - apply (balanced_le s'). exact Hb.
  - intros Hc. unfold balanced in Hb. rewrite Hc in Hb. exact Hb.
Qed.

(** ** What the calls leave alone *)

Lemma same_channel_refl (s : Jobserver) : same_channel s s.
Proof. unfold same_channel. auto. Qed.

Lemma channel_event_same (s s' : Jobserver) (e : event) :
  same_channel s s' -> channel_event s' e -> channel_event s e.
Proof.
  intros (_ & _ & Hr & Hw). destruct e; cbn; try rewrite Hr;
    try rewrite Hw; auto.
Qed.

Lemma reads_in_app (t1 t2 : list event) :
  reads_in (t1 ++ t2) = (reads_in t1 + reads_in t2)%nat.
Proof. unfold reads_in. rewrite filter_app, length_app. reflexivity. Qed.

Lemma framed_ret {A} (a : A) (s : Jobserver) (w : World) :
  framed s w 0 (ret a s w).
Proof.
  cbn. split; [apply same_channel_refl |]. split; [auto |].
  exists []. rewrite app_nil_r. repeat split; auto.
Qed.

Lemma framed_more {A} (s : Jobserver) (w : World) (r1 r2 : nat)
    (o : outcome A) :
  (r1 <= r2)%nat -> framed s w r1 o -> framed s w r2 o.
Proof.
  intros Hle. destruct o; cbn; [| | auto].
  - intros (Hs & Hc & evs & Ht & He & Hr).
    split; [exact Hs |]. split; [exact Hc |].
    exists evs. repeat split; auto. lia.
  - intros (evs & Ht & He & Hr). exists evs. repeat split; auto. lia.
Qed.

Lemma framed_bind {A B} (m : M A) (k : A -> M B) (s : Jobserver)
    (w : World) (r1 r2 : nat) :
  framed s w r1 (m s w) ->
  (forall a s1 w1, m s w = Done a s1 w1 -> framed s1 w1 r2 (k a s1 w1)) ->
  framed s w (r1 + r2) (bind m k s w).
Proof.
  intros Hm Hk. unfold bind.
  destruct (m s w) as [a s1 w1 | w1 |] eqn:Em; cbn [framed] in Hm.
  - destruct Hm as (Hs & Hc & evs & Ht & He & Hr).
    specialize (Hk a s1 w1 eq_refl).
    destruct (k a s1 w1) as [b s2 w2 | w2 |]; cbn [framed] in *.
    + destruct Hk as (Hs2 & Hc2 & evs2 & Ht2 & He2 & Hr2).
      destruct Hs as (H1 & H2 & H3 & H4).
      destruct Hs2 as (H1' & H2' & H3' & H4').
      split; [unfold same_channel; repeat split; congruence |].
      split; [auto |].
      exists (evs ++ evs2). rewrite Ht2, Ht, app_assoc.
      split; [reflexivity |]. split.
      * apply Forall_app. split; [exact He |].
        eapply Forall_impl; [| exact He2].
        intros e. apply channel_event_same.
        unfold same_channel. auto.
      * rewrite reads_in_app. lia.
    + destruct Hk as (evs2 & Ht2 & He2 & Hr2).
      exists (evs ++ evs2). rewrite Ht2, Ht, app_assoc.
      split; [reflexivity |]. split.
      * apply Forall_app. split; [exact He |].
        eapply Forall_impl; [| exact He2].
        intros e. apply channel_event_same. exact Hs.
      * rewrite reads_in_app. lia.
    + exact Hk.
  - destruct Hm as (evs & Ht & He & Hr). exists evs.
    repeat split; auto. lia.
  - exact Hm.
Qed.

Lemma Acquire_framed (s : Jobserver) (w : World) :
  framed s w 1 (Acquire s w).
Proof.
  destruct ((token_count_ s <=? 0) || jobserver_closed_ s) eqn:Hfast.
  - rewrite Acquire_fast by exact Hfast.
    apply (framed_more _ _ 0); [lia |].
    cbn. split; [unfold same_channel; cbn; auto |]. split; [auto |].
    exists []. rewrite app_nil_r. repeat split; auto.
  - rewrite Acquire_slow by exact Hfast. cbv zeta.
    destruct (hard_error (os_read w (reads_done w)));
      [destruct (jobserver_fifo_ s) |
       destruct (0 <? io_ret (os_read w (reads_done w)))];
      cbn [framed];
      try (split; [unfold same_channel; cbn; auto |]; split; [cbn; auto |]);
      framed_events.
Qed.

Lemma Release_framed (s : Jobserver) (w : World) :
  framed s w 0 (Release s w).
Proof.
  rewrite Release_eq. cbv zeta.
  match goal with |- context [with_token_count ?n s] => set (m := n) end.
  destruct ((m =? 0) || jobserver_closed_ s).
  - cbn. split; [unfold same_channel; cbn; auto |]. split; [auto |].
    exists []. rewrite app_nil_r. repeat split; auto.
  - destruct (io_ret (os_write w (writes_done w)) =? 1); cbn [framed];
      try (split; [unfold same_channel; cbn; auto |]; split; [cbn; auto |]);
      framed_events.
Qed.

Lemma Clear_loop_framed (fuel : nat) (s : Jobserver) (w : World) :
  Z.abs (token_count_ s) <= Z.of_nat fuel ->
  framed s w 0 (Clear_loop fuel s w).
Proof.
  revert s w. induction fuel as [| fuel IH]; intros s w Hf.
  - rewrite Clear_loop_zero by lia. apply framed_ret.
  - cbn [Clear_loop]. destruct (token_count_ s =? 0) eqn:Hz.
    + apply (framed_ret tt).
    + apply Z.eqb_neq in Hz.
      apply (framed_bind Release (fun _ => Clear_loop fuel) s w 0 0).
      * apply Release_framed.
      * intros [] s1 w1 ER. apply IH.
        apply Release_count in ER. destruct ER as (Hc1 & _).
        rewrite Hc1. destruct (token_count_ s <? 0) eqn:H1; [lia |].
        apply Z.ltb_ge in H1. destruct (0 <? token_count_ s) eqn:H2.
        -- apply Z.ltb_lt in H2. lia.
        -- apply Z.ltb_ge in H2. lia.
Qed.

Lemma run_framed (calls : list call) (s : Jobserver) (w : World) :
  framed s w (acquires calls) (run calls s w).
Proof.
  revert s w. induction calls as [| c calls IH]; intros s w.
  - apply (framed_ret []).
  - destruct c; cbn [run acquires].
    + apply (framed_bind Acquire _ s w 1 (acquires calls)).
      * apply Acquire_framed.
      * intros b s1 w1 _.
        replace (acquires calls) with (acquires calls + 0)%nat by lia.
        apply (framed_bind (run calls) _ s1 w1).
        -- apply IH.
        -- intros bs s2 w2 _. apply framed_ret.
    + apply (framed_bind Release _ s w 0 (acquires calls)).
      * apply Release_framed.
      * intros _ s1 w1 _. apply IH.
    + apply (framed_bind Clear _ s w 0 (acquires calls)).
      * unfold Clear. apply Clear_loop_framed. lia.
      * intros _ s1 w1 _. apply IH.
Qed.

(** X3: take any sequence of [Acquire], [Release] and [Clear] calls, each
    system call of which returns (a read that blocks for ever is outside the
    model).  The loop of [Clear] never needs more iterations than
    [|token_count_|], so the sequence returns or [Fatal] ends the process.
    All it does to the world is
    read [rfd_], write the byte [+] to [wfd_] and emit warnings or the fatal
    message: nothing is opened or closed.  It reads at most once per
    [Acquire].  When it returns, the name, the pipe kind and both
    descriptors are the ones it started with, so [Enabled()] answers as
    before, and a channel that was marked closed still is. *)
Theorem X3_calls_keep_the_channel (calls : list call) (s : Jobserver)
    (w : World) :
  match run calls s w with
  | Done _ s' w' =>
      same_channel s s' /\ Enabled s' = Enabled s /\
      (jobserver_closed_ s = true -> jobserver_closed_ s' = true) /\
      exists evs, trace w' = trace w ++ evs /\
                  Forall (channel_event s) evs /\
                  (reads_in evs <= acquires calls)%nat
  | Exited w' =>
      exists evs, trace w' = trace w ++ evs /\
                  Forall (channel_event s) evs /\
                  (reads_in evs <= acquires calls)%nat
  | OutOfFuel => False
  end.
Proof.
  pose proof (run_framed calls s w) as H.
  destruct (run calls s w) as [bs s' w' | w' |]; cbn [framed] in H;
    [| exact H | exact H].
  destruct H as (Hs & Hc & Hev).
  split; [exact Hs |]. split; [| split; [exact Hc | exact Hev]].
  destruct Hs as (_ & _ & Hr & Hw). unfold Enabled. rewrite Hr, Hw.
  reflexivity.
Qed.

(** ** More on single calls *)

(** What [Clear] leaves when it returns. *)
Lemma Clear_loop_done (fuel : nat) (s s1 : Jobserver) (w w1 : World) :
  Clear_loop fuel s w = Done tt s1 w1 ->
  token_count_ s1 = 0 /\
  jobserver_closed_ s1 = jobserver_closed_ s /\
  same_channel s s1.
Proof.
  revert s w. induction fuel as [| fuel IH]; intros s w; cbn [Clear_loop].
  - destruct (token_count_ s =? 0) eqn:Hz; [| discriminate].
    intros E. inversion E; subst. apply Z.eqb_eq in Hz.
    split; [exact Hz |]. split; [reflexivity | apply same_channel_refl].
  - destruct (token_count_ s =? 0) eqn:Hz.
    + intros E. inversion E; subst. apply Z.eqb_eq in Hz.
      split; [exact Hz |]. split; [reflexivity | apply same_channel_refl].
    + unfold bind. destruct (Release s w) as [[] s2 w2 | |] eqn:ER;
        try discriminate.
      intros E. apply IH in E. destruct E as (H0 & Hc & Hn & Hf & Hr & Hw).
      apply Release_count in ER.
      destruct ER as (_ & Hc2 & Hn2 & Hf2 & Hr2 & Hw2).
      split; [exact H0 |]. split; [congruence |].
      unfold same_channel. repeat split; congruence.
Qed.

Lemma Acquire_would_block (s : Jobserver) (w : World) :
  0 < token_count_ s ->
  jobserver_closed_ s = false ->
  io_ret (os_read w (reads_done w)) < 0 ->
  io_errno (os_read w (reads_done w)) = EAGAIN \/
  io_errno (os_read w (reads_done w)) = EWOULDBLOCK ->
  Acquire s w = Done false s (world_after_read (rfd_ s) w).
Proof.
  intros Hn Hc Hneg Herr. rewrite Acquire_slow
    by (rewrite Hc, orb_false_r; apply Z.leb_gt; exact Hn).
  cbv zeta.
  assert (Hh : hard_error (os_read w (reads_done w)) = false).
  { unfold hard_error. destruct Herr as [-> | ->];
      rewrite Z.eqb_refl; cbn [negb];
      rewrite ?andb_false_r; reflexivity. }
  rewrite Hh.
  assert (Hp : (0 <? io_ret (os_read w (reads_done w))) = false)
    by (apply Z.ltb_ge; lia).
  rewrite Hp. reflexivity.
Qed.

Lemma Acquire_token (s : Jobserver) (w : World) :
  0 < token_count_ s ->
  token_count_ s < INT_MAX ->
  jobserver_closed_ s = false ->
  0 < io_ret (os_read w (reads_done w)) ->
  Acquire s w = Done true (with_token_count (token_count_ s + 1) s)
                     (world_after_read (rfd_ s) w).
Proof.
  intros Hn Hmax Hc Hr. rewrite Acquire_slow
    by (rewrite Hc, orb_false_r; apply Z.leb_gt; exact Hn).
  cbv zeta.
  assert (Hh : hard_error (os_read w (reads_done w)) = false).
  { unfold hard_error.
    assert (H : (io_ret (os_read w (reads_done w)) <? 0) = false)
      by (apply Z.ltb_ge; lia).
    rewrite H. reflexivity. }
  rewrite Hh. apply Z.ltb_lt in Hr. rewrite Hr.
  rewrite wrap_int_small by (unfold INT_MIN, INT_MAX in *; lia).
  reflexivity.
Qed.

(** X4: polling.  With a token held and the channel open, an [Acquire]
    whose read fails with EAGAIN or EWOULDBLOCK returns false and leaves the
    object as it is, on a named pipe as on an anonymous one; nothing but the
    read is done, so no warning.  After [n] such calls the next [Acquire]
    that finds a byte returns true and counts one more token. *)
Theorem X4_Acquire_polling (n : nat) (s : Jobserver) (w : World)
    (Hcount : 0 < token_count_ s)
    (Hmax : token_count_ s < INT_MAX)
    (Hopen : jobserver_closed_ s = false)
    (Hbusy : forall k, (k < n)%nat ->
       io_ret (os_read w (reads_done w + k)%nat) < 0 /\
       (io_errno (os_read w (reads_done w + k)%nat) = EAGAIN \/
        io_errno (os_read w (reads_done w + k)%nat) = EWOULDBLOCK))
    (Hbyte : 0 < io_ret (os_read w (reads_done w + n)%nat)) :
  exists w' evs,
    run (repeat CallAcquire n ++ [CallAcquire]) s w
    = Done (repeat false n ++ [true])
           (with_token_count (token_count_ s + 1) s) w' /\
    trace w' = trace w ++ evs /\
    length evs = S n /\
    Forall (fun e => is_read e = true) evs.
Proof.
  revert w Hbusy Hbyte. induction n as [| n IH]; intros w Hbusy Hbyte.
  - rewrite Nat.add_0_r in Hbyte. cbn [repeat app run].
    unfold bind at 1. rewrite Acquire_token by assumption.
    eexists. exists [EvRead (rfd_ s) (io_ret (os_read w (reads_done w)))].
    split; [reflexivity |]. split; [reflexivity |].
    split; [reflexivity |]. repeat constructor.
  - destruct (Hbusy 0%nat) as [Hneg Herr]; [lia |].
    rewrite Nat.add_0_r in Hneg, Herr.
    destruct (IH (world_after_read (rfd_ s) w)) as
      (w' & evs & Hrun & Htr & Hlen & Hall).
    + intros k Hk. cbn [os_read reads_done world_after_read].
      replace (S (reads_done w) + k)%nat with (reads_done w + S k)%nat
        by lia.
      apply Hbusy. lia.
    + cbn [os_read reads_done world_after_read].
      replace (S (reads_done w) + n)%nat with (reads_done w + S n)%nat
        by lia.
      exact Hbyte.
    + exists w',
        (EvRead (rfd_ s) (io_ret (os_read w (reads_done w))) :: evs).
      cbn [repeat app run]. unfold bind at 1.
      rewrite Acquire_would_block by assumption.
      unfold bind at 1. rewrite Hrun. unfold ret.
      split; [reflexivity |]. split.
      * rewrite Htr. cbn [trace world_after_read].
        rewrite <- app_assoc. reflexivity.
      * split; [cbn; lia |]. constructor; [reflexivity | exact Hall].
Qed.

Lemma run_fifo_open (calls : list call) (s : Jobserver) (w : World) :
  jobserver_fifo_ s = true ->
  jobserver_closed_ s = false ->
  match run calls s w with
  | Done _ s' _ => jobserver_closed_ s' = false
  | _ => True
  end.
Proof.
  revert s w. induction calls as [| c calls IH]; intros s w Hf Hc.
  - exact Hc.
  - destruct c; cbn [run]; unfold bind at 1.
    + destruct (Acquire s w) as [b s1 w1 | |] eqn:EA; [| exact I | exact I].
      assert (H1 : jobserver_fifo_ s1 = true /\ jobserver_closed_ s1 = false).
      { destruct ((token_count_ s <=? 0) || jobserver_closed_ s) eqn:Hfast.
        - rewrite Acquire_fast in EA by exact Hfast.
          inversion EA; subst. cbn. auto.
        - rewrite Acquire_slow in EA by exact Hfast. cbv zeta in EA.
          rewrite Hf in EA.
          destruct (hard_error (os_read w (reads_done w)));
            [discriminate |].
          destruct (0 <? io_ret (os_read w (reads_done w)));
            inversion EA; subst; cbn; auto. }
      destruct H1 as [Hf1 Hc1]. specialize (IH s1 w1 Hf1 Hc1).
      unfold bind at 1. destruct (run calls s1 w1); cbn; auto.
    + destruct (Release s w) as [[] s1 w1 | |] eqn:ER; [| exact I | exact I].
      apply Release_count in ER. destruct ER as (_ & Hc1 & _ & Hf1 & _).
      apply IH; congruence.
    + destruct (Clear s w) as [[] s1 w1 | |] eqn:EC; [| exact I | exact I].
      apply Clear_loop_done in EC.
      destruct EC as (_ & Hc1 & _ & Hf1 & _).
      apply IH; congruence.
Qed.

(** X5: a client on a named pipe never falls back to the unlimited mode.
    As long as its calls return, the channel is not marked closed; and an
    [Acquire] whose read fails with an error other than EAGAIN /
    EWOULDBLOCK ends the process with the fatal message after that one
    read. *)
Theorem X5_named_pipe_aborts (s : Jobserver) (w : World)
    (Hfifo : jobserver_fifo_ s = true)
    (Hopen : jobserver_closed_ s = false) :
  (forall calls,
     match run calls s w with
     | Done _ s' _ => jobserver_closed_ s' = false
     | _ => True
     end) /\
  (0 < token_count_ s ->
   hard_error (os_read w (reads_done w)) = true ->
   exists w',
     Acquire s w = Exited w' /\
     trace w' = trace w
                ++ [EvRead (rfd_ s) (io_ret (os_read w (reads_done w)));
                    EvFatal "failed to read from jobserver: %d: %s"
                            [ArgInt (rfd_ s);
                             ArgErrno (io_errno
                                         (os_read w (reads_done w)))]]).
Proof.
  split.
  - intros calls. apply run_fifo_open; assumption.
  - intros Hn Herr. rewrite Acquire_slow
      by (rewrite Hopen, orb_false_r; apply Z.leb_gt; exact Hn).
    cbv zeta. rewrite Herr, Hfifo. eexists. split; [reflexivity |].
    cbn [log world_after_read trace]. rewrite <- app_assoc. reflexivity.
Qed.

(** X7: [Release] undoes [Acquire].  On an open channel with a token held,
    an [Acquire] that reads a byte followed by a [Release] whose write goes
    through leaves the object exactly as it was; the world has seen one read
    on [rfd_] and then one write of [+] on [wfd_].  With no token counted
    yet the pair leaves the count at 0 and the world untouched. *)
Theorem X7_Acquire_then_Release (s : Jobserver) (w : World)
    (Hopen : jobserver_closed_ s = false) :
  (token_count_ s <= 0 ->
   (Acquire ;; Release) s w = Done tt (with_token_count 0 s) w) /\
  (0 < token_count_ s -> token_count_ s < INT_MAX ->
   0 < io_ret (os_read w (reads_done w)) ->
   io_ret (os_write w (writes_done w)) = 1 ->
   exists w',
     (Acquire ;; Release) s w = Done tt s w' /\
     trace w' = trace w
                ++ [EvRead (rfd_ s) (io_ret (os_read w (reads_done w)));
                    EvWrite (wfd_ s) "+"%char 1]).
Proof.
  split.
  - intros Hn. unfold bind. rewrite Acquire_fast
      by (apply orb_true_iff; left; apply Z.leb_le; exact Hn).
    rewrite Release_last by reflexivity. reflexivity.
  - intros Hn Hmax Hr Hw. unfold bind.
    rewrite Acquire_token by assumption.
    rewrite Release_write;
      [| cbn; lia | exact Hopen | cbn; exact Hw].
    eexists. split.
    + cbn [token_count_ with_token_count wfd_].
      unfold with_token_count. cbn.
      replace (token_count_ s + 1 - 1) with (token_count_ s) by lia.
      destruct s; reflexivity.
    + cbn [trace world_after_write world_after_read os_write writes_done
           wfd_ with_token_count].
      rewrite Hw, <- app_assoc. reflexivity.
Qed.

(** ** Failed writes *)

Lemma Release_write_fails (s : Jobserver) (w : World) :
  1 < token_count_ s ->
  jobserver_closed_ s = false ->
  io_ret (os_write w (writes_done w)) <> 1 ->
  Release s w =
    Exited (log (EvFatal "failed to write to jobserver: %d: %s"
                         [ArgInt (wfd_ s);
                          ArgErrno (errno (world_after_write (wfd_ s) w))])
                (world_after_write (wfd_ s) w)).
Proof.
  intros Hn Hc Hw. rewrite Release_eq. cbv zeta.
  assert (H1 : (token_count_ s <? 0) = false) by (apply Z.ltb_ge; lia).
  assert (H2 : (0 <? token_count_ s) = true) by (apply Z.ltb_lt; lia).
  assert (H3 : (token_count_ s - 1 =? 0) = false) by (apply Z.eqb_neq; lia).
  apply Z.eqb_neq in Hw. rewrite H1, H2, H3, Hc, Hw. reflexivity.
Qed.

Lemma Clear_loop_write_fails (k fuel : nat) (s : Jobserver) (w : World) :
  Z.of_nat k + 1 < token_count_ s ->
  jobserver_closed_ s = false ->
  Z.abs (token_count_ s) <= Z.of_nat fuel ->
  (forall j, (j < k)%nat ->
     io_ret (os_write w (writes_done w + j)%nat) = 1) ->
  io_ret (os_write w (writes_done w + k)%nat) <> 1 ->
  exists w',
    Clear_loop fuel s w = Exited w' /\
    trace w' = trace w
               ++ repeat (EvWrite (wfd_ s) "+"%char 1) k
               ++ [EvWrite (wfd_ s) "+"%char
                           (io_ret (os_write w (writes_done w + k)%nat));
                   EvFatal "failed to write to jobserver: %d: %s"
                           [ArgInt (wfd_ s);
                            ArgErrno (errno w')]].
Proof.
  revert fuel s w. induction k as [| k IH]; intros fuel s w Hn Hc Hf Hok Hbad.
  - destruct fuel as [| fuel]; [lia |]. cbn [Clear_loop].
    destruct (token_count_ s =? 0) eqn:Hz; [apply Z.eqb_eq in Hz; lia |].
    rewrite Nat.add_0_r in Hbad. unfold bind.
    rewrite Release_write_fails; [| lia | exact Hc | exact Hbad].
    eexists. split; [reflexivity |].
    cbn [repeat app log world_after_write trace errno].
    rewrite Nat.add_0_r, <- app_assoc. reflexivity.
  - destruct fuel as [| fuel]; [lia |]. cbn [Clear_loop].
    destruct (token_count_ s =? 0) eqn:Hz; [apply Z.eqb_eq in Hz; lia |].
    unfold bind.
    assert (H0 : io_ret (os_write w (writes_done w)) = 1).
    { specialize (Hok 0%nat). rewrite Nat.add_0_r in Hok. apply Hok. lia. }
    rewrite Release_write; [| lia | exact Hc | exact H0].
    destruct (IH fuel (with_token_count (token_count_ s - 1) s)
                 (world_after_write (wfd_ s) w)) as [w' [HC Htr]].
    + cbn [token_count_ with_token_count]. lia.
    + exact Hc.
    + cbn [token_count_ with_token_count]. lia.
    + intros j Hj. cbn [os_write writes_done world_after_write].
      replace (S (writes_done w) + j)%nat with (writes_done w + S j)%nat
        by lia.
      apply Hok. lia.
    + cbn [os_write writes_done world_after_write].
      replace (S (writes_done w) + k)%nat with (writes_done w + S k)%nat
        by lia.
      exact Hbad.
    + exists w'. split; [exact HC |].
      rewrite Htr. cbn [trace world_after_write wfd_ with_token_count
        os_write writes_done repeat app].
      rewrite H0, <- app_assoc. cbn [app].
      replace (S (writes_done w) + k)%nat with (writes_done w + S k)%nat
        by lia.
      reflexivity.
Qed.

(** X8: a write that does not transfer exactly one byte ends the process
    in the middle of [Clear].  With more than [k + 1] tokens held on an open
    channel, [k] good writes and then a bad one, [Clear] does not return:
    the trace ends with the [k] writes, the failed write and the fatal
    message, and the tokens still held are not written back. *)
Theorem X8_Clear_stops_at_failed_write (k : nat) (s : Jobserver) (w : World)
    (Hcount : Z.of_nat k + 1 < token_count_ s)
    (Hopen : jobserver_closed_ s = false)
    (Hgood : forall j, (j < k)%nat ->
               io_ret (os_write w (writes_done w + j)%nat) = 1)
    (Hbad : io_ret (os_write w (writes_done w + k)%nat) <> 1) :
  exists w',
    Clear s w = Exited w' /\
    trace w' = trace w
               ++ repeat (EvWrite (wfd_ s) "+"%char 1) k
               ++ [EvWrite (wfd_ s) "+"%char
                           (io_ret (os_write w (writes_done w + k)%nat));
                   EvFatal "failed to write to jobserver: %d: %s"
                           [ArgInt (wfd_ s); ArgErrno (errno w')]].
Proof.
  destruct (Clear_loop_write_fails k (Z.to_nat (Z.abs (token_count_ s)))
              s w Hcount Hopen) as [w' [HC Htr]];
    [lia | exact Hgood | exact Hbad |].
  exists w'. split; [exact HC | exact Htr].
Qed.

(** ** The destructor *)

(** X2: when the destructor returns, the count is 0, both descriptors are
    -1 and [Enabled()] is false.  After the loop of [Clear] it closes each
    valid descriptor once, the read side first, and nothing else; running it
    again on the object it left would do nothing.  If the books balanced and
    the channel was open, every token read has been written back by then. *)
Theorem X2_destructor_postcondition (s s' : Jobserver) (w w' : World)
    (Hdtor : Jobserver_dtor s w = Done tt s' w') :
  token_count_ s' = 0 /\ rfd_ s' = -1 /\ wfd_ s' = -1 /\
  Enabled s' = false /\
  (exists s1 w1,
     Clear s w = Done tt s1 w1 /\
     trace w' = trace w1
                ++ (if 0 <=? rfd_ s then [EvClose (rfd_ s)] else [])
                ++ (if 0 <=? wfd_ s then [EvClose (wfd_ s)] else [])) /\
  Jobserver_dtor s' w' = Done tt s' w' /\
  (balanced s w -> jobserver_closed_ s = false ->
   tokens_in (trace w') = writes_in (trace w')).
Proof.
  unfold Jobserver_dtor in Hdtor. unfold bind at 1 in Hdtor.
  destruct (Clear s w) as [[] s1 w1 | |] eqn:EC; try discriminate.
  pose proof (Clear_balanced s w) as HB. rewrite EC in HB.
  cbn [balanced_outcome] in HB.
  apply Clear_loop_done in EC.
  destruct EC as (H0 & Hc & Hn & Hf & Hr & Hw).
  revert Hdtor. unfold_m. unfold log.
  destruct s1 as [n1 name1 closed1 fifo1 rfd1 wfd1]. cbn in *. subst.
  assert (Hpost : forall evs,
            Done tt (mkJobserver 0 (jobserver_name_ s) (jobserver_closed_ s)
                                 (jobserver_fifo_ s) (-1) (-1))
                 (mkWorld (os_open w1) (os_read w1) (os_write w1)
                          (opens_done w1) (reads_done w1) (writes_done w1)
                          (errno w1) (trace w1 ++ evs))
            = Done tt s' w' ->
            Forall (fun e => is_write e = false /\ is_token_read e = false)
                   evs ->
            token_count_ s' = 0 /\ rfd_ s' = -1 /\ wfd_ s' = -1 /\
            Enabled s' = false /\ trace w' = trace w1 ++ evs /\
            Jobserver_dtor s' w' = Done tt s' w' /\
            (balanced s w -> jobserver_closed_ s = false ->
             tokens_in (trace w') = writes_in (trace w'))).
  { intros evs E Hev. inversion E; subst s' w'. clear E.
    split; [reflexivity |]. split; [reflexivity |].
    split; [reflexivity |]. split; [reflexivity |].
    split; [reflexivity |]. split.
    - rewrite Jobserver_dtor_idle by reflexivity. reflexivity.
    - intros Hb Hopen. destruct (HB Hb) as [Hb1 _].
      unfold balanced in Hb1. cbn in Hb1. rewrite Hopen in Hb1.
      cbn [trace]. unfold tokens_in, writes_in in *.
      rewrite !filter_app, !length_app.
      assert (Hz : length (filter is_token_read evs) = 0%nat /\
                   length (filter is_write evs) = 0%nat).
      { clear - Hev. induction Hev as [| e evs [He1 He2] _ IH]; cbn;
          [auto |]. rewrite He1, He2. exact IH. }
      destruct Hz as [Hz1 Hz2]. rewrite Hz1, Hz2. lia. }
  destruct (0 <=? rfd_ s); cbn; destruct (0 <=? wfd_ s); cbn; intros E.
  - destruct (Hpost [EvClose (rfd_ s); EvClose (wfd_ s)])
      as (A & B & C & D & T & F & G);
      [rewrite <- E, <- app_assoc; reflexivity | repeat constructor |].
    repeat split; auto. eexists; eexists; split; [reflexivity | exact T].
  - destruct (Hpost [EvClose (rfd_ s)]) as (A & B & C & D & T & F & G);
      [rewrite <- E; reflexivity | repeat constructor |].
    repeat split; auto. eexists; eexists; split; [reflexivity | exact T].
  - destruct (Hpost [EvClose (wfd_ s)]) as (A & B & C & D & T & F & G);
      [rewrite <- E; reflexivity | repeat constructor |].
    repeat split; auto. eexists; eexists; split; [reflexivity | exact T].
  - destruct (Hpost []) as (A & B & C & D & T & F & G);
      [rewrite <- E, app_nil_r; destruct w1; reflexivity | constructor |].
    repeat split; auto. eexists; eexists; split; [reflexivity | exact T].
Qed.

(** ** Construction on a named pipe *)

Lemma Jobserver_attach_fifo (v : string) (w : World) :
  starts_with FIFO_KEY v = true ->
  Jobserver_attach v Jobserver_init w =
    let path := substr (String.length FIFO_KEY) v in
    let w1 := world_after_open path [O_RDONLY; O_NONBLOCK] w in
    let w2 := world_after_open path [O_WRONLY] w1 in
    adopt_fifo v (io_ret (os_open w (opens_done w)))
               (io_ret (os_open w (S (opens_done w)))) w2.
Proof.
  intros Hf. unfold Jobserver_attach, sscanf_rfd_wfd. unfold_m.
  cbn. rewrite Hf. cbn. unfold adopt_fifo, world_after_open. cbn.
  destruct ((0 <=? io_ret (os_open w (opens_done w)))
            && (0 <=? io_ret (os_open w (S (opens_done w))))); cbn;
    [reflexivity |].
  destruct ((io_ret (os_open w (opens_done w)) =? -1)
            || (io_ret (os_open w (S (opens_done w))) =? -1)); reflexivity.
Qed.

(** X11: a value that begins with [fifo:] is never scanned for
    descriptors: the constructor opens the rest of the value as a path,
    first for reading without blocking, then for writing, and the second
    open is made whatever the first returned.  With both descriptors valid
    the client is attached to them as a named pipe, [Enabled()] holds and
    [Tokens()] is -1.  If either open returned -1 the process is ended by
    [Fatal], and the descriptor that may have been opened is not closed. *)
Theorem X11_construction_on_fifo (raw : string) (w : World)
    (Hval : empty (flag_value (c_str raw)) = false)
    (Hfifo : starts_with FIFO_KEY (flag_value (c_str raw)) = true) :
  let v := flag_value (c_str raw) in
  let path := substr (String.length FIFO_KEY) v in
  let r := io_ret (os_open w (opens_done w)) in
  let wf := io_ret (os_open w (S (opens_done w))) in
  let opens := [EvOpen path [O_RDONLY; O_NONBLOCK] r;
                EvOpen path [O_WRONLY] wf] in
  (0 <= r -> 0 <= wf ->
   exists w',
     Jobserver_ctor (Some raw) Jobserver_init w
     = Done tt (mkJobserver (-1) v false true r wf) w' /\
     Enabled (mkJobserver (-1) v false true r wf) = true /\
     trace w' = trace w ++ opens
                ++ [EvInfo "using jobserver: %s" [ArgStr v]]) /\
  (r = -1 \/ wf = -1 ->
   exists w' args,
     Jobserver_ctor (Some raw) Jobserver_init w = Exited w' /\
     trace w' = trace w ++ opens
                ++ [EvFatal "failed to open jobserver: %s: %s" args]).
Proof.
  cbv zeta.
  rewrite Jobserver_ctor_attach by exact Hval.
  rewrite Jobserver_attach_fifo by exact Hfifo.
  cbv zeta. unfold adopt_fifo. split.
  - intros Hr Hw. pose proof Hr as Hr'. pose proof Hw as Hw'.
    apply Z.leb_le in Hr', Hw'. rewrite Hr', Hw'. cbn [andb].
    eexists. split; [reflexivity |]. split.
    + unfold Enabled. cbn. rewrite Hr', Hw'. reflexivity.
    + cbn [log world_after_open trace]. rewrite <- !app_assoc.
      reflexivity.
  - intros Hone.
    assert (Hb : (0 <=? io_ret (os_open w (opens_done w)))
                 && (0 <=? io_ret (os_open w (S (opens_done w)))) = false).
    { apply andb_false_iff. destruct Hone as [H | H]; rewrite H; auto. }
    assert (Ho : (io_ret (os_open w (opens_done w)) =? -1)
                 || (io_ret (os_open w (S (opens_done w))) =? -1) = true).
    { apply orb_true_iff. destruct Hone as [H | H]; rewrite H; auto. }
    rewrite Hb, Ho. eexists. eexists. split; [reflexivity |].
    cbn [log world_after_open trace]. rewrite <- !app_assoc. reflexivity.
Qed.

(** ** What every construction establishes *)

Lemma adopt_pair_post (v : string) (r wf : Z) (w w1 : World)
    (s1 : Jobserver) :
  adopt_pair v r wf w = Done tt s1 w1 ->
  token_count_ s1 = -1 /\
  (Enabled s1 = true <-> jobserver_closed_ s1 = false) /\
  jobserver_name_ s1 = v /\
  exists evs, trace w1 = trace w ++ evs /\
              Forall (fun e => is_io e = false) evs.
Proof.
  unfold adopt_pair.
  destruct ((0 <=? r) && (0 <=? wf)) eqn:Hb.
  - intros E; inversion E; subst; clear E. unfold Enabled. cbn.
    rewrite Hb. repeat split; auto.
    eexists. split; [reflexivity |]. repeat constructor.
  - destruct ((r =? -1) || (wf =? -1)); [discriminate |].
    intros E; inversion E; subst; clear E. unfold Enabled. cbn.
    rewrite Hb. repeat split; try discriminate; auto.
    exists []. rewrite app_nil_r. auto.
Qed.

Lemma adopt_fifo_post (v : string) (r wf : Z) (w w1 : World)
    (s1 : Jobserver) :
  adopt_fifo v r wf w = Done tt s1 w1 ->
  token_count_ s1 = -1 /\
  (Enabled s1 = true <-> jobserver_closed_ s1 = false) /\
  jobserver_name_ s1 = v /\
  exists evs, trace w1 = trace w ++ evs /\
              Forall (fun e => is_io e = false) evs.
Proof.
  unfold adopt_fifo.
  destruct ((0 <=? r) && (0 <=? wf)) eqn:Hb.
  - intros E; inversion E; subst; clear E. unfold Enabled. cbn.
    rewrite Hb. repeat split; auto.
    eexists. split; [reflexivity |]. repeat constructor.
  - destruct ((r =? -1) || (wf =? -1)); [discriminate |].
    intros E; inversion E; subst; clear E. unfold Enabled. cbn.
    rewrite Hb. repeat split; try discriminate; auto.
    exists []. rewrite app_nil_r. auto.
Qed.

(** X10: whenever the constructor returns, [Tokens()] is 0 or -1, and
    [Enabled()] holds exactly when it is -1 and the channel is not marked
    closed; with 0 the channel is not marked closed either.  The
    constructor reads nothing, writes nothing and closes nothing: whatever
    it adds to the trace is an [open] or a diagnostic.  Books that balanced
    before still balance. *)
Theorem X10_constructor_postcondition (MAKEFLAGS : option string)
    (s1 : Jobserver) (w w1 : World)
    (Hctor : Jobserver_ctor MAKEFLAGS Jobserver_init w = Done tt s1 w1) :
  (Tokens s1 = 0 \/ Tokens s1 = -1) /\
  (Enabled s1 = true <->
   Tokens s1 = -1 /\ jobserver_closed_ s1 = false) /\
  (Tokens s1 = 0 -> jobserver_closed_ s1 = false) /\
  (exists evs, trace w1 = trace w ++ evs /\
               Forall (fun e => is_io e = false) evs) /\
  (balanced Jobserver_init w -> balanced s1 w1).
Proof.
  unfold Tokens.
  assert (Hcore :
    (token_count_ s1 = 0 \/ token_count_ s1 = -1) /\
    (Enabled s1 = true <->
     token_count_ s1 = -1 /\ jobserver_closed_ s1 = false) /\
    (token_count_ s1 = 0 -> jobserver_closed_ s1 = false) /\
    (exists evs, trace w1 = trace w ++ evs /\
                 Forall (fun e => is_io e = false) evs)).
  { assert (Hinit : forall s0 w0, Done tt Jobserver_init w = Done tt s0 w0 ->
      (token_count_ s0 = 0 \/ token_count_ s0 = -1) /\
      (Enabled s0 = true <->
       token_count_ s0 = -1 /\ jobserver_closed_ s0 = false) /\
      (token_count_ s0 = 0 -> jobserver_closed_ s0 = false) /\
      (exists evs, trace w0 = trace w ++ evs /\
                   Forall (fun e => is_io e = false) evs)).
    { intros s0 w0 E. inversion E; subst. cbn.
      split; [auto |]. split; [split; [discriminate | intros [H _]; lia] |].
      split; [auto |]. exists []. rewrite app_nil_r. auto. }
    destruct MAKEFLAGS as [raw |]; [| apply Hinit; exact Hctor].
    destruct (empty (flag_value (c_str raw))) eqn:Hval.
    - apply Hinit. rewrite <- Hctor. symmetry.
      apply Jobserver_ctor_disabled. cbn. apply empty_true. exact Hval.
    - rewrite Jobserver_ctor_attach in Hctor by exact Hval.
      destruct (starts_with FIFO_KEY (flag_value (c_str raw))) eqn:Hf.
      + rewrite Jobserver_attach_fifo in Hctor by exact Hf.
        cbv zeta in Hctor. apply adopt_fifo_post in Hctor.
        destruct Hctor as (Hn & Hen & _ & evs & Htr & Hev).
        split; [auto |]. split; [rewrite Hen; intuition |].
        split; [lia |].
        eexists. split.
        * rewrite Htr. cbn [trace world_after_open].
          rewrite <- !app_assoc. reflexivity.
        * repeat constructor. exact Hev.
      + rewrite Jobserver_attach_pipe in Hctor by exact Hf.
        destruct (sscanf_d_comma_d (flag_value (c_str raw)) (-1) (-1))
          as [[k r] wf].
        destruct (k =? 2).
        * apply adopt_pair_post in Hctor.
          destruct Hctor as (Hn & Hen & _ & evs & Htr & Hev).
          rewrite after_sscanf_trace in Htr.
          split; [auto |]. split; [rewrite Hen; intuition |].
          split; [lia |]. exists evs. auto.
        * unfold reject_value in Hctor. inversion Hctor; subst.
          unfold Enabled. cbn [log trace token_count_ jobserver_closed_
            rfd_ wfd_].
          rewrite after_sscanf_trace. split; [auto |].
          split; [rewrite andb_false_r; split;
                  [discriminate | intros [H _]; lia] |].
          split; [auto |]. eexists. split; [reflexivity |].
          repeat constructor. }
  destruct Hcore as (Hn & Hen & H0 & evs & Htr & Hev).
  repeat split; try tauto; try (apply Hen); try (exists evs; auto).
  intros Hb. unfold balanced in *. cbn in Hb.
  assert (Hz : tokens_in (trace w1) = tokens_in (trace w) /\
               writes_in (trace w1) = writes_in (trace w)).
  { rewrite Htr. unfold tokens_in, writes_in.
    rewrite !filter_app, !length_app.
    assert (Hnone : length (filter is_token_read evs) = 0%nat /\
                    length (filter is_write evs) = 0%nat).
    { clear - Hev. induction Hev as [| e evs He _ IH]; cbn; [auto |].
      destruct e; cbn in *; try discriminate; exact IH. }
    destruct Hnone as [-> ->]. lia. }
  destruct Hz as [-> ->].
  destruct (jobserver_closed_ s1); lia.
Qed.

(** ** The tokenizer *)

Lemma tokenize_from_acc (s flag_ : string) (flags_ : list string) :
  tokenize_from s flag_ flags_ = flags_ ++ tokenize_from s flag_ [].
Proof.
  revert flag_ flags_. induction s as [| c s IH]; intros flag_ flags_;
    cbn [tokenize_from].
  - destruct (empty flag_); [rewrite app_nil_r |]; reflexivity.
  - destruct (isblank c).
    + rewrite IH. rewrite (IH _ (if empty flag_ then [] else [] ++ [flag_])).
      destruct (empty flag_); cbn [app]; [reflexivity |].
      rewrite <- app_assoc. reflexivity.
    + apply IH.
Qed.

Lemma tokenize_from_blank (a b flag_ : string) (c : ascii)
    (flags_ : list string) :
  isblank c = true ->
  tokenize_from (a ++ String c b) flag_ flags_
  = tokenize_from a flag_ flags_ ++ tokenize b.
Proof.
  intros Hc. revert flag_ flags_.
  induction a as [| x a IH]; intros flag_ flags_; cbn [append tokenize_from].
  - rewrite Hc. apply tokenize_from_acc.
  - destruct (isblank x); apply IH.
Qed.

Lemma push_back_app (flag_ s : string) (c : ascii) :
  (push_back flag_ c ++ s)%string = (flag_ ++ String c s)%string.
Proof.
  unfold push_back. rewrite string_app_assoc. reflexivity.
Qed.

Lemma tokenize_from_word (word flag_ : string) :
  all_chars not_blank word = true ->
  tokenize_from word flag_ []
  = if empty (flag_ ++ word) then [] else [(flag_ ++ word)%string].
Proof.
  revert flag_. induction word as [| c word IH]; intros flag_ Hw;
    cbn [tokenize_from].
  - rewrite string_app_empty_r. destruct (empty flag_); reflexivity.
  - cbn [all_chars] in Hw. apply andb_true_iff in Hw.
    destruct Hw as [Hc Hw]. unfold not_blank in Hc.
    apply negb_true_iff in Hc. rewrite Hc, IH by exact Hw.
    rewrite push_back_app. reflexivity.
Qed.

Lemma tokenize_word (word : string) :
  is_word word -> tokenize word = [word].
Proof.
  intros [Hne Hw]. unfold tokenize. rewrite tokenize_from_word by exact Hw.
  cbn [append]. apply empty_false in Hne. rewrite Hne. reflexivity.
Qed.

Lemma is_word_app (flag_ : string) (c : ascii) :
  all_chars not_blank flag_ = true ->
  isblank c = false ->
  all_chars not_blank (push_back flag_ c) = true.
Proof.
  intros Hf Hc. unfold push_back.
  induction flag_ as [| x flag_ IH]; cbn [append all_chars] in *.
  - unfold not_blank. rewrite Hc. reflexivity.
  - apply andb_true_iff in Hf. destruct Hf as [Hx Hf].
    rewrite Hx, IH by exact Hf. reflexivity.
Qed.

Lemma tokenize_from_words (s flag_ : string) (flags_ : list string) :
  all_chars not_blank flag_ = true ->
  Forall is_word flags_ ->
  Forall is_word (tokenize_from s flag_ flags_).
Proof.
  revert flag_ flags_. induction s as [| c s IH]; intros flag_ flags_ Hf Hl;
    cbn [tokenize_from].
  - destruct (empty flag_) eqn:He; [exact Hl |].
    apply Forall_app. split; [exact Hl |].
    constructor; [| constructor]. split; [| exact Hf].
    apply empty_false. exact He.
  - destruct (isblank c) eqn:Hc.
    + apply IH; [reflexivity |].
      destruct (empty flag_) eqn:He; [exact Hl |].
      apply Forall_app. split; [exact Hl |].
      constructor; [| constructor]. split; [| exact Hf].
      apply empty_false. exact He.
    + apply IH; [| exact Hl]. apply is_word_app; assumption.
Qed.

Lemma tokenize_from_nil (s flag_ : string) (flags_ : list string) :
  tokenize_from s flag_ flags_ = [] <->
  flags_ = [] /\ flag_ = EmptyString /\ all_chars isblank s = true.
Proof.
  revert flag_ flags_. induction s as [| c s IH]; intros flag_ flags_;
    cbn [tokenize_from all_chars].
  - destruct flag_ as [| x flag_]; cbn [empty].
    + intuition.
    + split.
      * intros H. apply app_eq_nil in H. destruct H as [_ H]. discriminate.
      * intros (_ & H & _). discriminate.
  - destruct (isblank c) eqn:Hc; cbn [andb].
    + rewrite IH. destruct flag_ as [| x flag_]; cbn [empty].
      * intuition.
      * split.
        -- intros (H & _). apply app_eq_nil in H. destruct H as [_ H].
           discriminate.
        -- intros (_ & H & _). discriminate.
    + rewrite IH. split.
      * intros (_ & H & _). unfold push_back in H.
        destruct flag_; discriminate.
      * intros (_ & _ & H). discriminate.
Qed.

(** X13: what the tokenizer returns.  Every word it returns is non-empty
    and holds no blank; it returns no word exactly when the string is empty
    or all blanks; and a blank splits the work: the words of
    [a ++ blank ++ b] are the words of [a] followed by the words of [b], so
    runs of blanks and blanks at either end change nothing. *)
Theorem X13_tokenize_words (a b : string) (c : ascii)
    (Hblank : isblank c = true) :
  Forall is_word (tokenize a) /\
  (tokenize a = [] <-> all_chars isblank a = true) /\
  tokenize (a ++ String c b) = tokenize a ++ tokenize b.
Proof.
  split; [| split].
  - apply tokenize_from_words; [reflexivity | constructor].
  - unfold tokenize. rewrite tokenize_from_nil. intuition.
  - unfold tokenize at 1. apply tokenize_from_blank. exact Hblank.
Qed.

(** X14: the tokenizer finds exactly the words a command line was built
    from: for words that are non-empty and free of blanks, tokenizing them
    joined by single spaces gives the words back, in order.  With X13, more
    blanks between them give the same list. *)
Theorem X14_tokenize_join (ws : list string)
    (Hwords : Forall is_word ws) :
  tokenize (join_words ws) = ws.
Proof.
  revert Hwords.
  induction ws as [| word ws IH]; intros Hws; [reflexivity |].
  inversion Hws as [| ? ? Hw Hrest]; subst.
  destruct ws as [| word2 ws].
  - cbn [join_words]. apply tokenize_word. exact Hw.
  - change (join_words (word :: word2 :: ws))
      with (word ++ String " " (join_words (word2 :: ws)))%string.
    unfold tokenize at 1. rewrite tokenize_from_blank by reflexivity.
    fold (tokenize word). rewrite tokenize_word by exact Hw.
    rewrite IH by exact Hrest. reflexivity.
Qed.

(** ** Flag strings without [--jobserver-auth=] *)

(** X12: when no word begins with [--jobserver-auth=], the legacy key
    decides.  If no word begins with [--jobserver-fds=] either, the
    constructor returns at once: the object and the world are as before, no
    diagnostic.  Otherwise the value used is what follows the key in the
    last word that begins with [--jobserver-fds=]. *)
Theorem X12_without_auth_word (makeflags : string)
    (Hauth : forall word, In word (tokenize makeflags) ->
               starts_with AUTH_KEY word = false) :
  ((forall word, In word (tokenize makeflags) ->
      starts_with FDS_KEY word = false) ->
   flag_value makeflags = EmptyString /\
   forall raw s w, c_str raw = makeflags ->
     Jobserver_ctor (Some raw) s w = Done tt s w) /\
  (forall before after v,
     tokenize makeflags = before ++ (FDS_KEY ++ v)%string :: after ->
     (forall word, In word after -> starts_with FDS_KEY word = false) ->
     flag_value makeflags = v).
Proof.
  assert (Hscan : scan_key AUTH_KEY (tokenize makeflags) EmptyString
                  = EmptyString)
    by (apply scan_key_no_match; exact Hauth).
  split.
  - intros Hfds.
    assert (Hv : flag_value makeflags = EmptyString).
    { unfold flag_value. cbv zeta. rewrite Hscan. cbn [empty].
      apply scan_key_no_match. exact Hfds. }
    split; [exact Hv |].
    intros raw s w Hraw. apply Jobserver_ctor_disabled.
    cbn. rewrite Hraw. exact Hv.
  - intros before after v Hwords Hlast.
    unfold flag_value. cbv zeta. rewrite Hscan. cbn [empty].
    rewrite Hwords. apply scan_key_last. exact Hlast.
Qed.

(** ** Values without an integer *)

(** X9: a value that is not a fifo and does not begin with an integer
    makes the constructor warn and return with nothing stored: both
    descriptors are still -1, the client is disabled, and its destructor
    leaves the world as it is: it closes nothing. *)
Theorem X9_value_without_integer (raw : string) (w : World)
    (Hval : empty (flag_value (c_str raw)) = false)
    (Hpipe : starts_with FIFO_KEY (flag_value (c_str raw)) = false)
    (Hnone : forall t rest n,
               flag_value (c_str raw) = (t ++ rest)%string ->
               integer_text t n -> starts_with_digit rest = false ->
               False) :
  let v := flag_value (c_str raw) in
  let s1 := mkJobserver 0 v false false (-1) (-1) in
  let w1 := log (EvWarning "invalid jobserver value: '%s'" [ArgStr v]) w in
  Jobserver_ctor (Some raw) Jobserver_init w = Done tt s1 w1 /\
  Enabled s1 = false /\
  Jobserver_dtor s1 w1 = Done tt s1 w1.
Proof.
  cbv zeta.
  rewrite Jobserver_ctor_attach by exact Hval.
  rewrite Jobserver_attach_pipe by exact Hpipe.
  assert (Hs : exists k, sscanf_d_comma_d (flag_value (c_str raw)) (-1) (-1)
                         = (k, -1, -1) /\ k <> 2 /\
                         sscanf_erange (flag_value (c_str raw)) = false).
  { unfold sscanf_d_comma_d, sscanf_erange.
    destruct (scan_int (flag_value (c_str raw))) as [| | n rest] eqn:Hscan.
    - exists (-1). split; [reflexivity |]. split; [lia | reflexivity].
    - exists 0. split; [reflexivity |]. split; [lia | reflexivity].
    - apply scan_int_sound in Hscan. destruct Hscan as [t (Hv & Ht & Hr)].
      exfalso. exact (Hnone t rest n Hv Ht Hr). }
  destruct Hs as [k (Hs & Hk & Hrange)]. rewrite Hs.
  unfold after_sscanf. rewrite Hrange.
  apply Z.eqb_neq in Hk. rewrite Hk. unfold reject_value.
  split; [reflexivity |]. split; [reflexivity |].
  rewrite Jobserver_dtor_idle by reflexivity. reflexivity.
Qed.

(** ** Surplus releases *)

Lemma Release_zero (s : Jobserver) (w : World) :
  token_count_ s = 0 -> Release s w = Done tt s w.
Proof.
  intros H0. rewrite Release_eq. cbv zeta. rewrite H0. cbn.
  rewrite <- H0, with_token_count_same. reflexivity.
Qed.

Lemma Release_times_covers_Clear (n fuel : nat) (s s1 : Jobserver)
    (w w1 : World) :
  Clear_loop fuel s w = Done tt s1 w1 ->
  Z.abs (token_count_ s) <= Z.of_nat n ->
  Release_times n s w = Done tt s1 w1.
Proof.
  revert fuel s w. induction n as [| n IH]; intros fuel s w HC Hn.
  - rewrite Clear_loop_zero in HC by lia. exact HC.
  - cbn [Release_times]. unfold bind.
    destruct (Z.eq_dec (token_count_ s) 0) as [Hz | Hz].
    + rewrite Release_zero by exact Hz.
      apply (IH fuel); [exact HC | lia].
    + destruct fuel as [| fuel]; cbn [Clear_loop] in HC.
      * apply Z.eqb_neq in Hz. rewrite Hz in HC. discriminate.
      * pose proof Hz as Hz'. apply Z.eqb_neq in Hz'. rewrite Hz' in HC.
        unfold bind in HC.
        destruct (Release s w) as [[] s2 w2 | |] eqn:ER; try discriminate.
        apply (IH fuel); [exact HC |].
        apply Release_count in ER. destruct ER as (Hc2 & _).
        rewrite Hc2. destruct (token_count_ s <? 0) eqn:H1; [lia |].
        apply Z.ltb_ge in H1. destruct (0 <? token_count_ s) eqn:H2.
        -- apply Z.ltb_lt in H2. lia.
        -- apply Z.ltb_ge in H2. lia.
Qed.

(** X15: [Release] never counts below zero, so calling it too often is
    harmless.  Whenever [Clear] returns, any number of [Release] calls that
    is at least the number of tokens held (at least one for the marker -1)
    gives the same object and the same world as [Clear]: the calls beyond
    the count change nothing and write nothing. *)
Theorem X15_surplus_Release (n : nat) (s s1 : Jobserver) (w w1 : World)
    (HClear : Clear s w = Done tt s1 w1)
    (Hn : Z.abs (token_count_ s) <= Z.of_nat n) :
  Release_times n s w = Done tt s1 w1 /\ token_count_ s1 = 0.
Proof.
  split.
  - apply (Release_times_covers_Clear n _ s s1 w w1 HClear Hn).
  - apply Clear_loop_done in HClear. apply HClear.
Qed.

(** ** A pair that cannot be used *)

(** X6: a pair of descriptors that is not valid and holds no -1 (such as
    [-2,-2]) gives a client that never touches the channel.  Construction
    is silent, [Enabled()] is false, and whatever calls follow, the world
    stays exactly as the scan of the value left it (the trace as it was)
    while every [Acquire] returns true: the cap is off. *)
Theorem X6_unusable_pair_lifts_the_cap (raw : string) (w : World) (r wf : Z)
    (calls : list call)
    (Hval : empty (flag_value (c_str raw)) = false)
    (Hpipe : starts_with FIFO_KEY (flag_value (c_str raw)) = false)
    (Hscan : sscanf_d_comma_d (flag_value (c_str raw)) (-1) (-1)
             = (2, r, wf))
    (Hinvalid : r < 0 \/ wf < 0)
    (Hr : r <> -1) (Hwf : wf <> -1) :
  exists s',
    (Jobserver_ctor (Some raw) ;; run calls) Jobserver_init w
    = Done (repeat true (acquires calls)) s'
           (after_sscanf (flag_value (c_str raw)) w) /\
    trace (after_sscanf (flag_value (c_str raw)) w) = trace w /\
    Enabled s' = false /\
    jobserver_closed_ s' = true.
Proof.
  unfold bind at 1.
  rewrite Jobserver_ctor_attach by exact Hval.
  rewrite Jobserver_attach_pipe by exact Hpipe.
  rewrite Hscan. cbn [Z.eqb Pos.eqb]. unfold adopt_pair.
  assert (Hb : (0 <=? r) && (0 <=? wf) = false).
  { apply andb_false_iff. destruct Hinvalid as [H | H];
      [left | right]; apply Z.leb_gt; exact H. }
  apply Z.eqb_neq in Hr, Hwf. rewrite Hb, Hr, Hwf. cbn [orb].
  destruct (run_closed calls
              (mkJobserver (-1) (flag_value (c_str raw)) true false r wf)
              (after_sscanf (flag_value (c_str raw)) w) eq_refl)
    as [s' (Hrun & Hc & Hr' & Hw')].
  exists s'. split; [exact Hrun |].
  split; [apply after_sscanf_trace |]. split; [| exact Hc].
  unfold Enabled. rewrite Hr', Hw'. exact Hb.
Qed.

(** ** A whole session *)

Lemma world_after_reads_S (fd : Z) (n : nat) (w : World) :
  world_after_reads fd (S n) w
  = world_after_reads fd n (world_after_read fd w).
Proof.
  unfold world_after_reads.
  induction n as [| n IH]; [reflexivity |].
  cbn in *. rewrite IH. reflexivity.
Qed.

Lemma world_after_reads_fields (fd : Z) (n : nat) (w : World) :
  os_write (world_after_reads fd n w) = os_write w /\
  writes_done (world_after_reads fd n w) = writes_done w.
Proof.
  revert w. induction n as [| n IH]; intros w; [split; reflexivity |].
  rewrite world_after_reads_S. destruct (IH (world_after_read fd w))
    as [H1 H2]. rewrite H1, H2. split; reflexivity.
Qed.

Lemma world_after_reads_trace (fd : Z) (n : nat) (w : World) :
  (forall k, (k < n)%nat ->
     io_ret (os_read w (reads_done w + k)%nat) = 1) ->
  trace (world_after_reads fd n w) = trace w ++ repeat (EvRead fd 1) n.
Proof.
  revert w. induction n as [| n IH]; intros w Hr.
  - cbn. rewrite app_nil_r. reflexivity.
  - rewrite world_after_reads_S, IH.
    + cbn [trace world_after_read repeat]. rewrite <- app_assoc. cbn [app].
      specialize (Hr 0%nat). rewrite Nat.add_0_r in Hr.
      rewrite Hr by lia. reflexivity.
    + intros k Hk. cbn [os_read reads_done world_after_read].
      replace (S (reads_done w) + k)%nat with (reads_done w + S k)%nat
        by lia.
      apply Hr. lia.
Qed.

(** [n] reads that each deliver a byte: [n] more tokens. *)
Lemma run_acquires_tokens (n : nat) (s : Jobserver) (w : World) :
  0 < token_count_ s ->
  token_count_ s + Z.of_nat n <= INT_MAX ->
  jobserver_closed_ s = false ->
  (forall k, (k < n)%nat ->
     io_ret (os_read w (reads_done w + k)%nat) = 1) ->
  run (repeat CallAcquire n) s w
  = Done (repeat true n)
         (with_token_count (token_count_ s + Z.of_nat n) s)
         (world_after_reads (rfd_ s) n w).
Proof.
  revert s w. induction n as [| n IH]; intros s w Hn Hmax Hc Hr.
  - cbn. rewrite Z.add_0_r, with_token_count_same. reflexivity.
  - cbn [repeat run]. unfold bind at 1.
    rewrite Acquire_token; [| exact Hn | lia | exact Hc |].
    + unfold bind at 1. rewrite IH.
      * unfold ret. rewrite world_after_reads_S.
        cbn [token_count_ with_token_count rfd_].
        unfold with_token_count. cbn.
        replace (token_count_ s + 1 + Z.of_nat n)
          with (token_count_ s + Z.pos (Pos.of_succ_nat n)) by lia.
        reflexivity.
      * cbn [token_count_ with_token_count]. lia.
      * cbn [token_count_ with_token_count]. lia.
      * exact Hc.
      * intros k Hk. cbn [os_read reads_done world_after_read].
        replace (S (reads_done w) + k)%nat with (reads_done w + S k)%nat
          by lia.
        apply Hr. lia.
    + specialize (Hr 0%nat). rewrite Nat.add_0_r in Hr.
      rewrite Hr by lia. lia.
Qed.

(** X16: a whole session on an inherited pipe.  The flag value scans as
    two valid descriptors [r] and [wf]; the scheduler calls [Acquire]
    [n + 1] times, the pipe delivering a byte to each read, and then the
    object is destroyed while every write goes through.  The process has
    announced the jobserver, read [n] bytes from [r] (the first token is
    the implicit one), written [n] bytes back to [wf] and only then closed
    [r] and [wf]; nothing else happened, and the object ends with no token
    and no descriptor. *)
Theorem X16_session_on_a_pipe (raw : string) (w : World) (r wf : Z)
    (n : nat)
    (Hval : empty (flag_value (c_str raw)) = false)
    (Hpipe : starts_with FIFO_KEY (flag_value (c_str raw)) = false)
    (Hscan : sscanf_d_comma_d (flag_value (c_str raw)) (-1) (-1)
             = (2, r, wf))
    (Hr : 0 <= r) (Hwf : 0 <= wf)
    (Hmax : Z.of_nat n + 1 <= INT_MAX)
    (Hreads : forall k, (k < n)%nat ->
                io_ret (os_read w (reads_done w + k)%nat) = 1)
    (Hwrites : forall k, (k < n)%nat ->
                 io_ret (os_write w (writes_done w + k)%nat) = 1) :
  exists w',
    (Jobserver_ctor (Some raw) ;; run (repeat CallAcquire (S n)) ;;
     Jobserver_dtor) Jobserver_init w
    = Done tt (mkJobserver 0 (flag_value (c_str raw)) false false (-1) (-1))
           w' /\
    trace w' = trace w
               ++ [EvInfo "using jobserver: %s"
                          [ArgStr (flag_value (c_str raw))]]
               ++ repeat (EvRead r 1) n
               ++ repeat (EvWrite wf "+"%char 1) n
               ++ [EvClose r; EvClose wf].
Proof.
  set (v := flag_value (c_str raw)) in *.
  set (w0 := log (EvInfo "using jobserver: %s" [ArgStr v])
                 (after_sscanf v w)).
  destruct (after_sscanf_fields v w)
    as (Hvt & _ & Hvr & Hvw & _ & Hvrd & Hvwd).
  assert (Hreads0 : forall k, (k < n)%nat ->
            io_ret (os_read w0 (reads_done w0 + k)%nat) = 1).
  { intros k Hk. unfold w0. cbn [os_read reads_done log].
    rewrite Hvr, Hvrd. apply Hreads. exact Hk. }
  assert (Hwrites0 : forall k, (k < n)%nat ->
            io_ret (os_write w0 (writes_done w0 + k)%nat) = 1).
  { intros k Hk. unfold w0. cbn [os_write writes_done log].
    rewrite Hvw, Hvwd. apply Hwrites. exact Hk. }
  set (s0 := mkJobserver (-1) v false false r wf).
  assert (Hctor : Jobserver_ctor (Some raw) Jobserver_init w = Done tt s0 w0).
  { rewrite Jobserver_ctor_attach by exact Hval.
    rewrite Jobserver_attach_pipe by exact Hpipe. fold v.
    rewrite Hscan. cbn [Z.eqb Pos.eqb]. unfold adopt_pair.
    pose proof Hr as Hr'. pose proof Hwf as Hwf'.
    apply Z.leb_le in Hr', Hwf'. rewrite Hr', Hwf'. reflexivity. }
  set (s1 := mkJobserver (1 + Z.of_nat n) v false false r wf).
  set (w1 := world_after_reads r n w0).
  assert (Hrun : run (repeat CallAcquire (S n)) s0 w0
                 = Done (repeat true (S n)) s1 w1).
  { cbn [repeat run]. unfold bind at 1.
    rewrite Acquire_fast by reflexivity.
    unfold bind at 1. rewrite run_acquires_tokens.
    - reflexivity.
    - cbn. lia.
    - cbn [token_count_ with_token_count s0]. lia.
    - reflexivity.
    - exact Hreads0. }
  destruct (world_after_reads_fields r n w0) as [Hosw Hwd].
  assert (HClear : Clear s1 w1
                   = Done tt (with_token_count 0 s1)
                          (world_after_writes wf n w1)).
  { unfold Clear. apply (Clear_loop_open n).
    - cbn [token_count_ s1]. lia.
    - reflexivity.
    - cbn [token_count_ s1]. lia.
    - intros k Hk. unfold w1. rewrite Hosw, Hwd. apply Hwrites0.
      exact Hk. }
  eexists. split.
  - unfold bind at 1. rewrite Hctor. unfold bind at 1. rewrite Hrun.
    unfold Jobserver_dtor. unfold bind at 1. rewrite HClear.
    unfold_m. unfold with_token_count, s1. cbn.
    pose proof Hr as Hr'. pose proof Hwf as Hwf'.
    apply Z.leb_le in Hr', Hwf'. rewrite Hr'. cbn. rewrite Hwf'. cbn.
    reflexivity.
  - cbn [trace log]. rewrite world_after_writes_trace.
    + unfold w1. rewrite world_after_reads_trace.
      * unfold w0. cbn [trace log]. rewrite Hvt, <- !app_assoc.
        reflexivity.
      * exact Hreads0.
    + intros k Hk. unfold w1. rewrite Hosw, Hwd. apply Hwrites0. exact Hk.
Qed.

End Client.

(** * Examples on Linux ([EAGAIN = EWOULDBLOCK = 11]) *)

(** The first [Acquire] of a client attached to descriptors 3 and 4, on a
    channel that has nothing to read. *)
Lemma C1_witness :
  token_count_ (mkJobserver (-1) "3,4" false false 3 4) <= 0 /\
  Acquire 11 11 (mkJobserver (-1) "3,4" false false 3 4) world_eof
  = Done true (mkJobserver 1 "3,4" false false 3 4) world_eof.
Proof.
  split; [cbn; lia |].
  apply (C1_Acquire_implicit_token 11 11
           (mkJobserver (-1) "3,4" false false 3 4) world_eof).
  left. cbn. lia.
Defined.

(** [Release] straight after construction. *)
Lemma C7_witness :
  token_count_ (mkJobserver (-1) "3,4" false false 3 4) < 0 /\
  Release (mkJobserver (-1) "3,4" false false 3 4) world_tokens
  = Done tt (mkJobserver 0 "3,4" false false 3 4) world_tokens.
Proof.
  split; [cbn; lia |].
  apply (C7_Release_before_first_token
           (mkJobserver (-1) "3,4" false false 3 4) world_tokens).
  cbn. lia.
Defined.

(** Three [Acquire]s at end-of-file with one token held. *)
Lemma C9_witness :
  exists w',
    run 11 11 (repeat CallAcquire 3)
        (mkJobserver 1 "3,4" false false 3 4) world_eof
    = Done [false; false; false] (mkJobserver 1 "3,4" false false 3 4) w' /\
    trace w' = [EvRead 3 0; EvRead 3 0; EvRead 3 0].
Proof.
  destruct (C9_Acquire_end_of_file 11 11 3
              (mkJobserver 1 "3,4" false false 3 4) world_eof)
    as [w' (Hrun & Htrace & _)].
  - cbn. lia.
  - reflexivity.
  - intros k _. reflexivity.
  - exists w'. split; [exact Hrun | exact Htrace].
Defined.

(** A read that fails with EBADF on an anonymous pipe, then three more
    calls. *)
Lemma C3_witness :
  exists s1 w1,
    Acquire 11 11 (mkJobserver 1 "3,4" false false 3 4) world_bad_fd
    = Done false s1 w1 /\
    jobserver_closed_ s1 = true /\
    exists s2,
      run 11 11 [CallAcquire; CallRelease; CallAcquire] s1 w1
      = Done [true; true] s2 w1 /\
      jobserver_closed_ s2 = true.
Proof.
  destruct (C3_closed_channel_is_permanent 11 11
              (mkJobserver 1 "3,4" false false 3 4) world_bad_fd)
    as [s1 [w1 (HA & Hc & _ & Hrest)]].
  - cbn. lia.
  - reflexivity.
  - reflexivity.
  - reflexivity.
  - exists s1, w1. split; [exact HA |]. split; [exact Hc |].
    destruct (Hrest [CallAcquire; CallRelease; CallAcquire])
      as [s2 (Hrun & Hc2 & _)].
    exists s2. split; [exact Hrun | exact Hc2].
Defined.

(** Three tokens acquired on descriptors 3 and 4, then [Clear]. *)
Lemma C2_witness :
  let s := mkJobserver (-1) "3,4" false false 3 4 in
  let s1 := mkJobserver 3 "3,4" false false 3 4 in
  let w1 := mkWorld (os_open world_tokens) (os_read world_tokens)
                    (os_write world_tokens) 0 2 0 0
                    [EvRead 3 1; EvRead 3 1] in
  run 11 11 (repeat CallAcquire 3) s world_tokens
    = Done (repeat true 3) s1 w1 /\
  exists w2,
    Clear s1 w1 = Done tt (mkJobserver 0 "3,4" false false 3 4) w2 /\
    Clear s1 w1 = Release_times 3 s1 w1 /\
    trace w2 = [EvRead 3 1; EvRead 3 1;
                EvWrite 4 "+"%char 1; EvWrite 4 "+"%char 1].
Proof.
  cbv zeta. split; [reflexivity |].
  destruct (C2_Clear_releases_all 11 11 3
              (mkJobserver (-1) "3,4" false false 3 4)
              (mkJobserver 3 "3,4" false false 3 4)
              world_tokens
              (mkWorld (os_open world_tokens) (os_read world_tokens)
                       (os_write world_tokens) 0 2 0 0
                       [EvRead 3 1; EvRead 3 1]))
    as [_ [w2 (HC & HR & _ & Htr & _)]].
  - lia.
  - unfold INT_MAX. lia.
  - cbn. lia.
  - reflexivity.
  - reflexivity.
  - intros k _. reflexivity.
  - exists w2. split; [exact HC |]. split; [exact HR | exact Htr].
Defined.

(** With the channel closed, three successful [Acquire]s leave one token,
    and [Clear] is one [Release] without any write: not three. *)
Lemma C2_counterexample :
  let s := mkJobserver (-1) "-2,-2" true false (-2) (-2) in
  let s1 := mkJobserver 1 "-2,-2" true false (-2) (-2) in
  Jobserver_ctor (Some "--jobserver-auth=-2,-2") Jobserver_init world_tokens
    = Done tt s world_tokens /\
  run 11 11 (repeat CallAcquire 3) s world_tokens
    = Done (repeat true 3) s1 world_tokens /\
  token_count_ s1 = 1 /\
  Clear s1 world_tokens = Release_times 1 s1 world_tokens /\
  Clear s1 world_tokens
    = Done tt (mkJobserver 0 "-2,-2" true false (-2) (-2)) world_tokens /\
  writes_in (trace world_tokens) = 0%nat.
Proof. cbv zeta. repeat split; reflexivity. Qed.

(** The pair [3,-1] has exactly one valid descriptor and ends the process;
    the pair [-2,-2] has none and does not. *)
Lemma C4_counterexample :
  sscanf_d_comma_d "3,-1" (-1) (-1) = (2, 3, -1) /\
  Jobserver_ctor (Some "--jobserver-auth=3,-1") Jobserver_init world_tokens
    = Exited (log (EvFatal "failed to open jobserver: %s: %s"
                           [ArgStr "3,-1";
                            ArgStr "No such file or directory"])
                  world_tokens) /\
  sscanf_d_comma_d "-2,-2" (-1) (-1) = (2, -2, -2) /\
  Jobserver_ctor (Some "--jobserver-auth=-2,-2") Jobserver_init world_tokens
    = Done tt (mkJobserver (-1) "-2,-2" true false (-2) (-2)) world_tokens.
Proof. repeat split; reflexivity. Qed.

(** An inherited pair of which the write side is -3. *)
Lemma C4_witness :
  Jobserver_ctor (Some "--jobserver-auth=5,-3") Jobserver_init world_tokens
  = Done tt (mkJobserver (-1) "5,-3" true false 5 (-3)) world_tokens.
Proof.
  apply (C4_construction_from_pair "--jobserver-auth=5,-3" world_tokens
           5 (-3)); try reflexivity; lia.
Defined.

(** Characters after the second integer do not make the value malformed. *)
Lemma C5_counterexample :
  spec_exactly_two_integers "18,66xyz" = None /\
  flag_value "--jobserver-auth=18,66xyz" = "18,66xyz" /\
  Jobserver_ctor (Some "--jobserver-auth=18,66xyz") Jobserver_init
                 world_tokens
  = Done tt (mkJobserver (-1) "18,66xyz" false false 18 66)
         (log (EvInfo "using jobserver: %s" [ArgStr "18,66xyz"])
              world_tokens).
Proof. repeat split; reflexivity. Qed.

Lemma C5_witness :
  pair_prefix "18,66xyz" 18 66 /\
  Jobserver_ctor (Some "--jobserver-auth=18,66xyz") Jobserver_init
                 world_tokens
  = adopt_pair "18,66xyz" 18 66 world_tokens.
Proof.
  assert (Hp : pair_prefix "18,66xyz" 18 66).
  { apply (sscanf_two_iff _ (-1) (-1)). reflexivity. }
  split; [exact Hp |].
  destruct (C5_pair_value "--jobserver-auth=18,66xyz" world_tokens)
    as [Hadopt _]; [reflexivity | reflexivity |].
  apply Hadopt. exact Hp.
Defined.

(** The last [--jobserver-auth=] word has an empty value: the value of the
    [--jobserver-fds=] word is used. *)
Lemma C6_counterexample :
  tokenize "--jobserver-auth=1,2 --jobserver-fds=3,4 --jobserver-auth="
  = ["--jobserver-auth=1,2"; "--jobserver-fds=3,4"; "--jobserver-auth="] /\
  flag_value "--jobserver-auth=1,2 --jobserver-fds=3,4 --jobserver-auth="
  = "3,4" /\
  Jobserver_ctor
    (Some "--jobserver-auth=1,2 --jobserver-fds=3,4 --jobserver-auth=")
    Jobserver_init world_tokens
  = Done tt (mkJobserver (-1) "3,4" false false 3 4)
         (log (EvInfo "using jobserver: %s" [ArgStr "3,4"]) world_tokens).
Proof. repeat split; reflexivity. Qed.

Lemma C6_witness :
  flag_value "--jobserver-fds=3,4 --jobserver-auth=1,2 --jobserver-auth=5,6 -j"
  = "5,6".
Proof.
  destruct (C6_last_auth_occurrence
              "--jobserver-fds=3,4 --jobserver-auth=1,2 --jobserver-auth=5,6 -j"
              ["--jobserver-fds=3,4"; "--jobserver-auth=1,2"] ["-j"] "5,6")
    as [Hv _].
  - reflexivity.
  - intros word [Hw | []]. subst word. reflexivity.
  - apply Hv. discriminate.
Defined.

(** The second [Acquire] of a disabled client reads descriptor -1. *)
Lemma C8_counterexample :
  Jobserver_ctor None Jobserver_init world_bad_fd
    = Done tt Jobserver_init world_bad_fd /\
  exists s' w',
    run 11 11 [CallAcquire; CallAcquire] Jobserver_init world_bad_fd
      = Done [true; false] s' w' /\
    trace w' = [EvRead (-1) (-1);
                EvWarning "pipe closed: %d (mark the command as recursive)"
                          [ArgInt (-1)]] /\
    reads_in (trace w') = 1%nat.
Proof.
  split; [reflexivity |].
  eexists. eexists. split; [reflexivity |]. split; reflexivity.
Qed.

Lemma C8_witness :
  exists bs s' w',
    (Jobserver_ctor (Some "-j8 --no-print-directory") ;;
     run 11 11 [CallAcquire; CallRelease; CallAcquire; CallAcquire;
                CallClear])
      Jobserver_init world_bad_fd
    = Done bs s' w' /\
    writes_in (trace w') = 0%nat /\
    (reads_in (trace w') <= 1)%nat.
Proof.
  destruct (C8_disabled_client_io 11 11 (Some "-j8 --no-print-directory")
              [CallAcquire; CallRelease; CallAcquire; CallAcquire; CallClear]
              world_bad_fd)
    as (bs & s' & w' & Hrun & Hw & Hr & _).
  - reflexivity.
  - reflexivity.
  - exists bs, s', w'. split; [exact Hrun |]. split; [exact Hw | exact Hr].
Defined.


(** ** More examples *)

(** Two tokens taken, one given back, a third taken, then [Clear]. *)
Lemma X1_witness :
  match run 11 11
            [CallAcquire; CallAcquire; CallRelease; CallAcquire; CallClear]
            (mkJobserver (-1) "3,4" false false 3 4) world_tokens with
  | Done _ s' w' =>
      (writes_in (trace w') <= tokens_in (trace w'))%nat /\
      (jobserver_closed_ s' = false ->
       Z.of_nat (tokens_in (trace w'))
       = Z.of_nat (writes_in (trace w')) + Z.max (token_count_ s') 1 - 1)
  | Exited w' => (writes_in (trace w') <= tokens_in (trace w'))%nat
  | OutOfFuel => False
  end.
Proof.
  apply (X1_token_conservation 11 11
           [CallAcquire; CallAcquire; CallRelease; CallAcquire; CallClear]
           (mkJobserver (-1) "3,4" false false 3 4) world_tokens).
  - reflexivity.
  - cbn. unfold INT_MAX. lia.
Defined.

(** The destructor of a client that holds two tokens. *)
Lemma X2_witness :
  let s' := mkJobserver 0 "3,4" false false (-1) (-1) in
  let w' := mkWorld (os_open world_tokens) (os_read world_tokens)
                    (os_write world_tokens) 0 0 1 0
                    [EvWrite 4 "+"%char 1; EvClose 3; EvClose 4] in
  Jobserver_dtor (mkJobserver 2 "3,4" false false 3 4) world_tokens
    = Done tt s' w' /\
  Enabled s' = false /\
  Jobserver_dtor s' w' = Done tt s' w'.
Proof.
  cbv zeta. split; [reflexivity |].
  destruct (X2_destructor_postcondition
              (mkJobserver 2 "3,4" false false 3 4)
              (mkJobserver 0 "3,4" false false (-1) (-1))
              world_tokens
              (mkWorld (os_open world_tokens) (os_read world_tokens)
                       (os_write world_tokens) 0 0 1 0
                       [EvWrite 4 "+"%char 1; EvClose 3; EvClose 4]))
    as (_ & _ & _ & Hen & _ & Hagain & _); [reflexivity |].
  split; [exact Hen | exact Hagain].
Defined.

(** Two polls that find nothing, then a token. *)
Lemma X4_witness :
  exists w',
    run 11 11 [CallAcquire; CallAcquire; CallAcquire]
        (mkJobserver 1 "3,4" false false 3 4) world_busy
    = Done [false; false; true] (mkJobserver 2 "3,4" false false 3 4) w'.
Proof.
  destruct (X4_Acquire_polling 11 11 2
              (mkJobserver 1 "3,4" false false 3 4) world_busy)
    as (w' & evs & Hrun & _).
  - cbn. lia.
  - cbn. unfold INT_MAX. lia.
  - reflexivity.
  - intros k Hk. destruct k as [| [| k]]; [| | lia]; cbn; split; auto; lia.
  - cbn. lia.
  - exists w'. exact Hrun.
Defined.

(** A read error on a named pipe. *)
Lemma X5_witness :
  exists w',
    Acquire 11 11 (mkJobserver 1 "fifo:/tmp/js" false true 3 4) world_bad_fd
    = Exited w'.
Proof.
  destruct (X5_named_pipe_aborts 11 11
              (mkJobserver 1 "fifo:/tmp/js" false true 3 4) world_bad_fd)
    as [_ Hfatal]; [reflexivity | reflexivity |].
  destruct Hfatal as [w' [HA _]]; [cbn; lia | reflexivity |].
  exists w'. exact HA.
Defined.

(** Acquire a second token and give it back. *)
Lemma X7_witness :
  exists w',
    (Acquire 11 11 ;; Release)
      (mkJobserver 1 "3,4" false false 3 4) world_tokens
    = Done tt (mkJobserver 1 "3,4" false false 3 4) w' /\
    trace w' = [EvRead 3 1; EvWrite 4 "+"%char 1].
Proof.
  destruct (X7_Acquire_then_Release 11 11
              (mkJobserver 1 "3,4" false false 3 4) world_tokens)
    as [_ Hpair]; [reflexivity |].
  apply Hpair.
  - cbn. lia.
  - cbn. unfold INT_MAX. lia.
  - cbn. lia.
  - reflexivity.
Defined.

(** Three tokens held; the second write hits a broken pipe. *)
Lemma X8_witness :
  exists w',
    Clear (mkJobserver 3 "3,4" false false 3 4) world_broken_pipe
    = Exited w' /\
    trace w' = [EvWrite 4 "+"%char 1; EvWrite 4 "+"%char (-1);
                EvFatal "failed to write to jobserver: %d: %s"
                        [ArgInt 4; ArgErrno (errno w')]].
Proof.
  apply (X8_Clear_stops_at_failed_write 1
           (mkJobserver 3 "3,4" false false 3 4) world_broken_pipe).
  - cbn. lia.
  - reflexivity.
  - intros j Hj. destruct j as [| j]; [reflexivity | lia].
  - cbn. lia.
Defined.

(** The value [abc]. *)
Lemma X9_witness :
  Jobserver_ctor (Some "--jobserver-auth=abc") Jobserver_init world_tokens
  = Done tt (mkJobserver 0 "abc" false false (-1) (-1))
         (log (EvWarning "invalid jobserver value: '%s'" [ArgStr "abc"])
              world_tokens) /\
  Jobserver_dtor (mkJobserver 0 "abc" false false (-1) (-1))
    (log (EvWarning "invalid jobserver value: '%s'" [ArgStr "abc"])
         world_tokens)
  = Done tt (mkJobserver 0 "abc" false false (-1) (-1))
         (log (EvWarning "invalid jobserver value: '%s'" [ArgStr "abc"])
              world_tokens).
Proof.
  destruct (X9_value_without_integer "--jobserver-auth=abc" world_tokens)
    as (Hctor & _ & Hdtor).
  - reflexivity.
  - reflexivity.
  - intros t rest n Hv Ht Hr.
    pose proof (scan_int_complete t rest n Ht Hr) as Hscan.
    rewrite <- Hv in Hscan. vm_compute in Hscan. discriminate Hscan.
  - split; [exact Hctor | exact Hdtor].
Defined.

(** Construction from [3,4]. *)
Lemma X10_witness :
  Enabled (mkJobserver (-1) "3,4" false false 3 4) = true <->
  Tokens (mkJobserver (-1) "3,4" false false 3 4) = -1 /\
  jobserver_closed_ (mkJobserver (-1) "3,4" false false 3 4) = false.
Proof.
  destruct (X10_constructor_postcondition (Some "--jobserver-auth=3,4")
              (mkJobserver (-1) "3,4" false false 3 4)
              world_tokens
              (log (EvInfo "using jobserver: %s" [ArgStr "3,4"])
                   world_tokens))
    as (_ & Hen & _); [reflexivity |].
  exact Hen.
Defined.

(** Construction from [fifo:/tmp/js], both opens returning 3. *)
Lemma X11_witness :
  exists w',
    Jobserver_ctor (Some "--jobserver-auth=fifo:/tmp/js") Jobserver_init
                   world_tokens
    = Done tt (mkJobserver (-1) "fifo:/tmp/js" false true 3 3) w' /\
    trace w' = [EvOpen "/tmp/js" [O_RDONLY; O_NONBLOCK] 3;
                EvOpen "/tmp/js" [O_WRONLY] 3;
                EvInfo "using jobserver: %s" [ArgStr "fifo:/tmp/js"]].
Proof.
  destruct (X11_construction_on_fifo "--jobserver-auth=fifo:/tmp/js"
              world_tokens) as [Hok _]; [reflexivity | reflexivity |].
  destruct Hok as [w' (Hctor & _ & Htr)]; [cbn; lia | cbn; lia |].
  exists w'. split; [exact Hctor | exact Htr].
Defined.

(** Only the legacy key is present. *)
Lemma X12_witness :
  flag_value "-j4 --jobserver-fds=3,4 -k" = "3,4".
Proof.
  destruct (X12_without_auth_word "-j4 --jobserver-fds=3,4 -k")
    as [_ Hfds].
  - intros word Hin. vm_compute in Hin.
    destruct Hin as [<- | [<- | [<- | []]]]; reflexivity.
  - apply (Hfds ["-j4"] ["-k"] "3,4").
    + reflexivity.
    + intros word [<- | []]. reflexivity.
Defined.

Lemma X13_witness :
  tokenize ("  -j4 " ++ String " " "--jobserver-auth=3,4")
  = tokenize "  -j4 " ++ tokenize "--jobserver-auth=3,4".
Proof.
  destruct (X13_tokenize_words "  -j4 " "--jobserver-auth=3,4" " "%char)
    as (_ & _ & Hsplit); [reflexivity |].
  exact Hsplit.
Defined.

Lemma X14_witness :
  tokenize (join_words ["-j4"; "--jobserver-auth=3,4"; "-k"])
  = ["-j4"; "--jobserver-auth=3,4"; "-k"].
Proof.
  apply (X14_tokenize_join ["-j4"; "--jobserver-auth=3,4"; "-k"]).
  repeat constructor; discriminate.
Defined.

(** Five [Release]s with two tokens held. *)
Lemma X15_witness :
  Release_times 5 (mkJobserver 2 "3,4" false false 3 4) world_tokens
  = Done tt (mkJobserver 0 "3,4" false false 3 4)
         (mkWorld (os_open world_tokens) (os_read world_tokens)
                  (os_write world_tokens) 0 0 1 0
                  [EvWrite 4 "+"%char 1]).
Proof.
  apply (X15_surplus_Release 5
           (mkJobserver 2 "3,4" false false 3 4)
           (mkJobserver 0 "3,4" false false 3 4)
           world_tokens
           (mkWorld (os_open world_tokens) (os_read world_tokens)
                    (os_write world_tokens) 0 0 1 0
                    [EvWrite 4 "+"%char 1])).
  - reflexivity.
  - cbn. lia.
Defined.

(** The pair [-2,-2]. *)
Lemma X6_witness :
  exists s',
    (Jobserver_ctor (Some "--jobserver-auth=-2,-2") ;;
     run 11 11 [CallAcquire; CallAcquire; CallRelease; CallAcquire])
      Jobserver_init world_tokens
    = Done [true; true; true] s' world_tokens /\
    Enabled s' = false.
Proof.
  destruct (X6_unusable_pair_lifts_the_cap 11 11 "--jobserver-auth=-2,-2"
              world_tokens (-2) (-2)
              [CallAcquire; CallAcquire; CallRelease; CallAcquire])
    as [s' (Hrun & _ & Hen & _)];
    try reflexivity; try lia.
  exists s'. split; [exact Hrun | exact Hen].
Defined.

(** Three commands on the pipe [3,4]. *)
Lemma X16_witness :
  exists w',
    (Jobserver_ctor (Some "--jobserver-auth=3,4") ;;
     run 11 11 (repeat CallAcquire 3) ;; Jobserver_dtor)
      Jobserver_init world_tokens
    = Done tt (mkJobserver 0 "3,4" false false (-1) (-1)) w' /\
    trace w' = [EvInfo "using jobserver: %s" [ArgStr "3,4"];
                EvRead 3 1; EvRead 3 1;
                EvWrite 4 "+"%char 1; EvWrite 4 "+"%char 1;
                EvClose 3; EvClose 4].
Proof.
  apply (X16_session_on_a_pipe 11 11 "--jobserver-auth=3,4" world_tokens
           3 4 2).
  - reflexivity.
  - reflexivity.
  - reflexivity.
  - lia.
  - lia.
  - unfold INT_MAX. lia.
  - intros k _. reflexivity.
  - intros k _. reflexivity.
Defined.

(** A descriptor beyond the range of [long]: the scan stores -1 and leaves
    ERANGE in [errno], which is what the fatal message then reports. *)
Lemma scan_overflow_example :
  Jobserver_ctor (Some "--jobserver-auth=99999999999999999999,4")
                 Jobserver_init world_tokens
  = Exited (log (EvFatal "failed to open jobserver: %s: %s"
                         [ArgStr "99999999999999999999,4"; ArgErrno ERANGE])
                (mkWorld (os_open world_tokens) (os_read world_tokens)
                         (os_write world_tokens) 0 0 0 ERANGE [])).
Proof. reflexivity. Qed.
